(** * Donna backend: the [/chat] turn synthesis pipeline

    A shallow embedding of [src/Donna-Backend/index.js]: the values produced
    by [JSON.parse], the property accesses the handler performs on them, the
    helpers [execCommand], [lipSyncMessage], [readJsonTranscript] and
    [audioFileToBase64], and the [app.post("/chat")] handler itself.

    The external collaborators (OpenAI chat completion, ElevenLabs
    [textToSpeech], the shell behind [exec], [fs.readFile]) and the
    language built-ins the handler relies on ([JSON.parse] and the numeric
    coercions of [<]) are the fields of one interface, [Collaborators];
    every statement below holds for all of their behaviours. *)

From Stdlib Require Import ZArith Lia Ascii String.
From Stdlib.Strings Require Import Byte.
From Stdlib Require Import Floats.PrimFloat Uint63.
From stdpp Require Import base option list strings pretty.

Open Scope string_scope.
Open Scope list_scope.

(** ** Values *)

(** What [JSON.parse] returns: [null], booleans, numbers (IEEE doubles),
    strings, arrays and plain objects.  An object is the list of its own
    properties in enumeration order.  [undefined] is not a JSON value; a
    property read that may yield it has type [option JSValue]. *)
#[warnings="-register-all"]
Inductive JSValue : Type :=
| JNull
| JBool (b : bool)
| JNum (f : float)
| JStr (s : string)
| JArr (elems : list JSValue)
| JObj (props : list (string * JSValue)).

(** The calls the handler awaits. *)
Inductive Call : Type :=
| CreateCompletion (content : JSValue)
| TextToSpeech (fileName : string) (textInput : option JSValue)
| ExecCommand (command : string)
| AudioFileToBase64 (file : string)
| ReadJsonTranscript (file : string).

(** What the handler can throw. [Rejected c] is the rejection of the promise
    of the awaited call [c]. *)
Inductive Error : Type :=
| TypeError
| SyntaxError
| Rejected (c : Call)
| OutOfFuel.  (* the loop counter of the model ran out; see [serve_thrown] *)

Inductive Result (A : Type) : Type :=
| Ok (a : A)
| Throw (e : Error).
Arguments Ok {A} a.
Arguments Throw {A} e.

Module JS.

(** Own property lookup in an object's property list. *)
Fixpoint assoc (k : string) (props : list (string * JSValue)) : option JSValue :=
  match props with
  | [] => None
  | (k', v) :: rest => if String.eqb k k' then Some v else assoc k rest
  end.

(** [o[k] = v] on an object: an existing property keeps its place, a new
    one is added last. *)
Fixpoint assign (k : string) (v : JSValue) (props : list (string * JSValue))
  : list (string * JSValue) :=
  match props with
  | [] => [(k, v)]
  | (k', v') :: rest =>
      if String.eqb k k' then (k', v) :: rest else (k', v') :: assign k v rest
  end.

(** ToBoolean: [null], [false], [0], [-0], [NaN] and the empty string are
    falsy, and so is [undefined]. *)
Definition truthy (v : JSValue) : bool :=
  match v with
  | JNull => false
  | JBool b => b
  | JNum f => negb (PrimFloat.eqb f 0%float || negb (PrimFloat.eqb f f))
  | JStr s => negb (String.eqb s "")
  | JArr _ => true
  | JObj _ => true
  end.

Definition truthy_or_undefined (v : option JSValue) : bool :=
  match v with
  | Some v => truthy v
  | None => false
  end.

(** [v.k] for a property name [k] that is neither an array index nor
    [length] nor inherited from a prototype (the handler reads [message],
    [messages] and [text] this way): an own property of an object,
    [undefined] on arrays and primitives, a TypeError on [null]. *)
Definition get (v : JSValue) (k : string) : Result (option JSValue) :=
  match v with
  | JNull => Throw TypeError
  | JObj props => Ok (assoc k props)
  | _ => Ok None
  end.

(** The same read when the base itself may be [undefined]. *)
Definition get_member (v : option JSValue) (k : string) : Result (option JSValue) :=
  match v with
  | None => Throw TypeError
  | Some v => get v k
  end.

(** [v.k = x] in strict mode (the file is an ES module).  On an object the
    property is written.  On an array the write succeeds too, but a named
    property of an array is neither read again by the handler nor
    serialised by [res.send], so the array is left as it is.  On a
    primitive the write throws. *)
Definition set (v : JSValue) (k : string) (x : JSValue) : Result JSValue :=
  match v with
  | JObj props => Ok (JObj (assign k x props))
  | JArr elems => Ok (JArr elems)
  | _ => Throw TypeError
  end.

(** The same write when the base may be [undefined]. *)
Definition set_member (v : option JSValue) (k : string) (x : JSValue) : Result JSValue :=
  match v with
  | None => Throw TypeError
  | Some v => set v k x
  end.

(** [v[i]] for a loop index [i]. *)
Definition get_index (v : JSValue) (i : nat) : Result (option JSValue) :=
  match v with
  | JNull => Throw TypeError
  | JArr elems => Ok (elems !! i)
  | JStr s => Ok (option_map (fun c => JStr (String c EmptyString)) (String.get i s))
  | JObj props => Ok (assoc (pretty i) props)
  | _ => Ok None
  end.

(** The element read at index [i] is an object reference: the writes made
    through it are visible in the container at that index. *)
Definition store_index (v : JSValue) (i : nat) (x : JSValue) : JSValue :=
  match v with
  | JArr elems => JArr (<[i := x]> elems)
  | JObj props => JObj (assign (pretty i) x props)
  | _ => v
  end.

(** The loop counter as a double (exact for every index below 2^53). *)
Definition number_of_index (i : nat) : float :=
  PrimFloat.of_uint63 (Uint63.of_Z (Z.of_nat i)).

End JS.

(** ** Base64 (RFC 4648), the encoding behind [Buffer.toString("base64")] *)

Module Base64.

Definition alphabet : string :=
  "ABCDEFGHIJKLMNOPQRSTUVWXYZabcdefghijklmnopqrstuvwxyz0123456789+/".

Definition pad : ascii := "="%char.

(** The character of a 6-bit group. *)
Definition char_of (n : Z) : ascii :=
  match String.get (Z.to_nat n) alphabet with
  | Some c => c
  | None => pad
  end.

Fixpoint index_from (c : ascii) (s : string) (n : Z) : option Z :=
  match s with
  | EmptyString => None
  | String c' rest => if Ascii.eqb c c' then Some n else index_from c rest (n + 1)
  end.

(** The 6-bit group of a character of the alphabet. *)
Definition index_of (c : ascii) : option Z := index_from c alphabet 0.

(** The test run over the alphabet: character [k] is at index [k] and is
    not the padding character. *)
Definition alphabet_ok (k : nat) : bool :=
  match index_of (char_of (Z.of_nat k)) with
  | Some n => Z.eqb n (Z.of_nat k) && negb (Ascii.eqb (char_of (Z.of_nat k)) pad)
  | None => false
  end.

Definition Z_of_byte (b : byte) : Z := Z.of_N (Byte.to_N b).
Definition byte_of_Z (z : Z) : option byte := Byte.of_N (Z.to_N z).

(** Three bytes make four 6-bit groups; one or two trailing bytes are
    padded with [=]. *)
Fixpoint encode (data : list byte) : string :=
  match data with
  | [] => ""
  | [a] =>
      let a := Z_of_byte a in
      String (char_of (a / 4))
        (String (char_of (a mod 4 * 16)) (String pad (String pad "")))
  | [a; b] =>
      let a := Z_of_byte a in
      let b := Z_of_byte b in
      String (char_of (a / 4))
        (String (char_of (a mod 4 * 16 + b / 16))
           (String (char_of (b mod 16 * 4)) (String pad "")))
  | a :: b :: c :: rest =>
      let a := Z_of_byte a in
      let b := Z_of_byte b in
      let c := Z_of_byte c in
      String (char_of (a / 4))
        (String (char_of (a mod 4 * 16 + b / 16))
           (String (char_of (b mod 16 * 4 + c / 64))
              (String (char_of (c mod 64)) (encode rest))))
  end.

Definition quantum3 (n1 n2 n3 n4 : Z) : option (list byte) :=
  a ← byte_of_Z (n1 * 4 + n2 / 16);
  b ← byte_of_Z (n2 mod 16 * 16 + n3 / 4);
  c ← byte_of_Z (n3 mod 4 * 64 + n4);
  Some [a; b; c].

Definition quantum2 (n1 n2 n3 : Z) : option (list byte) :=
  a ← byte_of_Z (n1 * 4 + n2 / 16);
  b ← byte_of_Z (n2 mod 16 * 16 + n3 / 4);
  if Z.eqb (n3 mod 4) 0 then Some [a; b] else None.

Definition quantum1 (n1 n2 : Z) : option (list byte) :=
  a ← byte_of_Z (n1 * 4 + n2 / 16);
  if Z.eqb (n2 mod 16) 0 then Some [a] else None.

(** The strict decoder: groups of four characters, padding only in the
    last group, no stray bits. *)
Fixpoint decode (s : string) : option (list byte) :=
  match s with
  | EmptyString => Some []
  | String c1 (String c2 (String c3 (String c4 rest))) =>
      match rest with
      | EmptyString =>
          if Ascii.eqb c4 pad then
            if Ascii.eqb c3 pad then
              n1 ← index_of c1; n2 ← index_of c2; quantum1 n1 n2
            else
              n1 ← index_of c1; n2 ← index_of c2; n3 ← index_of c3;
              quantum2 n1 n2 n3
          else
            n1 ← index_of c1; n2 ← index_of c2; n3 ← index_of c3;
            n4 ← index_of c4; quantum3 n1 n2 n3 n4
      | _ =>
          n1 ← index_of c1; n2 ← index_of c2; n3 ← index_of c3;
          n4 ← index_of c4;
          q ← quantum3 n1 n2 n3 n4;
          tl ← decode rest;
          Some (q ++ tl)
      end
  | _ => None
  end.

End Base64.

(** ** The outside world *)

(** Everything the handler awaits or calls that is not in the repository.
    A collaborator takes the world to a new world and either a result or
    nothing (its promise rejects, or the call throws).  The two [exec]
    tools, [ffmpeg] and [rhubarb], are told apart by their command line. *)
Class Collaborators : Type := {
  World : Type;
  (** [openai.chat.completions.create], from the user content to
      [completion.choices[0].message.content] *)
  createCompletion : JSValue -> World -> World * option string;
  (** [voice.textToSpeech(elevenLabsApiKey, voiceID, fileName, textInput)] *)
  textToSpeech : string -> option JSValue -> World -> World * option unit;
  (** [exec(command, callback)]: the standard output, or nothing when the
      callback receives an error *)
  exec : string -> World -> World * option string;
  (** [fs.readFile(file)] and [fs.readFile(file, "utf8")] *)
  readFile : string -> World -> World * option (list byte);
  readFileUtf8 : string -> World -> World * option string;
  (** [JSON.parse]; nothing when it throws a SyntaxError *)
  JSON_parse : string -> option JSValue;
  (** StringToNumber, and ToPrimitive on an array or object (nothing when
      it throws a TypeError) *)
  StringToNumber : string -> float;
  ObjectToPrimitive : JSValue -> option string;
}.

(** ** The handler's monad: the world, a log of the awaited calls, errors *)

(** The log is the timeline of the awaited calls, as a mock collaborator
    would record it: a call starts, and then it finishes (its promise
    resolves) or fails (its promise rejects).  The handler does not read
    it. *)

Inductive Event : Type :=
| Started (c : Call)
| Finished (c : Call)
| Failed (c : Call).

Section Backend.

Context `{Collaborators}.

Record State : Type := mkState { world : World; log : list Event }.

Definition M (A : Type) : Type := State -> State * Result A.

#[export] Instance M_ret : MRet M := fun A a st => (st, Ok a).

#[export] Instance M_bind : MBind M := fun A B k m st =>
  match m st with
  | (st', Ok a) => k a st'
  | (st', Throw e) => (st', Throw e)
  end.

(** A synchronous step that may throw. *)
Definition lift {A : Type} (r : Result A) : M A := fun st => (st, r).

(** [await] of a collaborator's promise: the continuation runs only once
    the promise has settled. *)
Definition call {A : Type} (c : Call) (run : World -> World * option A) : M A :=
  fun st =>
    match run (world st) with
    | (w, Some a) => (mkState w (log st ++ [Started c; Finished c]), Ok a)
    | (w, None) => (mkState w (log st ++ [Started c; Failed c]), Throw (Rejected c))
    end.

(** ** [src/Donna-Backend/index.js] *)

(** Lines 35-42.  The promise rejects when [exec] reports an error and
    resolves with the standard output otherwise (the [resolve] that follows
    a [reject] has no effect). *)
Definition execCommand (command : string) : M string :=
  call (ExecCommand command) (exec command).

Definition ffmpeg_command (message : nat) : string :=
  "ffmpeg -y -i audios/message_" +:+ pretty message +:+ ".mp3 audios/message_"
    +:+ pretty message +:+ ".wav".

Definition rhubarb_command (message : nat) : string :=
  "bin\rhubarb -f json -o audios/message_" +:+ pretty message
    +:+ ".json audios/message_" +:+ pretty message +:+ ".wav -r phonetic".

(** Lines 45-58 (the timing messages written to the console are left out). *)
Definition lipSyncMessage (message : nat) : M unit :=
  _ ← execCommand (ffmpeg_command message);
  _ ← execCommand (rhubarb_command message);
  mret tt.

(** Lines 111-114. *)
Definition readJsonTranscript (file : string) : M JSValue :=
  call (ReadJsonTranscript file)
    (fun w => let '(w', data) := readFileUtf8 file w in (w', data ≫= JSON_parse)).

(** Lines 117-120. *)
Definition audioFileToBase64 (file : string) : M string :=
  call (AudioFileToBase64 file)
    (fun w => let '(w', data) := readFile file w in (w', Base64.encode <$> data)).

(** [i < v] for a loop index [i] and a value [v] found in a [length]
    property: [v] is converted to a number first. *)
Definition index_lt_value (i : nat) (v : JSValue) : Result bool :=
  match v with
  | JNull => Ok false
  | JBool b => Ok (b && Nat.eqb i 0)
  | JNum f => Ok (PrimFloat.ltb (JS.number_of_index i) f)
  | JStr s => Ok (PrimFloat.ltb (JS.number_of_index i) (StringToNumber s))
  | _ =>
      match ObjectToPrimitive v with
      | Some s => Ok (PrimFloat.ltb (JS.number_of_index i) (StringToNumber s))
      | None => Throw TypeError
      end
  end.

(** Line 94, the loop test [i < messages.length]. *)
Definition loop_test (i : nat) (messages : JSValue) : Result bool :=
  match messages with
  | JNull => Throw TypeError
  | JArr elems => Ok (Nat.ltb i (length elems))
  | JStr s => Ok (Nat.ltb i (String.length s))
  | JObj props =>
      match JS.assoc "length" props with
      | Some v => index_lt_value i v
      | None => Ok false
      end
  | _ => Ok false
  end.

Definition mp3_file (i : nat) : string := "audios/message_" +:+ pretty i +:+ ".mp3".
Definition json_file (i : nat) : string := "audios/message_" +:+ pretty i +:+ ".json".

(** Lines 95-104, one pass of the loop body. *)
Definition enrichTurn (i : nat) (messages : JSValue) : M JSValue :=
  message ← lift (JS.get_index messages i);
  let fileName := mp3_file i in
  textInput ← lift (JS.get_member message "text");
  _ ← call (TextToSpeech fileName textInput) (textToSpeech fileName textInput);
  _ ← lipSyncMessage i;
  audio ← audioFileToBase64 fileName;
  message ← lift (JS.set_member message "audio" (JStr audio));
  lipsync ← readJsonTranscript (json_file i);
  message ← lift (JS.set message "lipsync" lipsync);
  mret (JS.store_index messages i message).

(** Lines 94-105, the loop from index [i] on. *)
Fixpoint enrich (fuel : nat) (i : nat) (messages : JSValue) : M JSValue :=
  match fuel with
  | O => lift (Throw OutOfFuel)
  | S fuel =>
      more ← lift (loop_test i messages);
      if more : bool then
        messages ← enrichTurn i messages;
        enrich fuel (S i) messages
      else mret messages
  end.

(** The loop makes at most this many passes, plus the final test. *)
Definition passes (messages : JSValue) : nat :=
  match messages with
  | JArr elems => length elems
  | JStr s => String.length s
  | JObj props => length props
  | _ => 0
  end.

(** Lines 89-91. *)
Definition normalize (parsed : JSValue) : Result JSValue :=
  match JS.get parsed "messages" with
  | Throw e => Throw e
  | Ok (Some m) => if JS.truthy m then Ok m else Ok parsed
  | Ok None => Ok parsed
  end.

(** Line 107, the body handed to [res.send]. *)
Definition respond (messages : JSValue) : JSValue := JObj [("messages", messages)].

(** Lines 89-107: what the handler does with the parsed model output. *)
Definition serve (parsed : JSValue) : M JSValue :=
  messages ← lift (normalize parsed);
  messages ← enrich (S (passes messages)) 0 messages;
  mret (respond messages).

(** Lines 82-85, the user content sent to the model. *)
Definition userContent (userMessage : option JSValue) : JSValue :=
  match userMessage with
  | Some m => if JS.truthy m then m else JStr "Hello"
  | None => JStr "Hello"
  end.

(** Lines 61-108.  [Ok body] is [res.send(body)]; [Throw e] is the handler's
    promise rejecting with nothing sent. *)
Definition chat (body : JSValue) : M JSValue :=
  userMessage ← lift (JS.get body "message");
  content ← call (CreateCompletion (userContent userMessage))
              (createCompletion (userContent userMessage));
  parsed ← lift (match JSON_parse content with
                 | Some v => Ok v
                 | None => Throw SyntaxError
                 end);
  serve parsed.

(** A request starts with nothing logged. *)
Definition start (w : World) : State := mkState w [].

End Backend.

(** ** Vocabulary of the statements *)

(** The closed enumerations the system prompt announces (lines 78-79). *)
Definition facialExpressions : list string :=
  ["smile"; "sad"; "angry"; "surprised"; "funnyFace"; "default"].

Definition animations : list string :=
  ["Talking_0"; "Talking_1"; "Talking_2"; "Crying"; "Laughing"; "Rumba";
   "Idle"; "Terrified"; "Angry"].

(** The log of calls that each ran to completion, one after the other. *)
Fixpoint completed (cs : list Call) : list Event :=
  match cs with
  | [] => []
  | c :: cs => Started c :: Finished c :: completed cs
  end.

(** The awaited calls of the pass for turn [i], whose text is [text]:
    synthesis, transcoding, viseme extraction, then the two read-backs. *)
Definition turn_calls (i : nat) (text : option JSValue) : list Call :=
  [TextToSpeech (mp3_file i) text;
   ExecCommand (ffmpeg_command i);
   ExecCommand (rhubarb_command i);
   AudioFileToBase64 (mp3_file i);
   ReadJsonTranscript (json_file i)].

(** The calls of the passes for turns [i], [i+1], ... with the given texts. *)
Fixpoint schedule (i : nat) (texts : list (option JSValue)) : list Call :=
  match texts with
  | [] => []
  | text :: texts => turn_calls i text ++ schedule (S i) texts
  end.

(** The log of a run that followed [sched] and stopped with error [e]:
    either between two calls, on an error that is no rejection, or inside
    the call that was due next, whose promise rejected. *)
Inductive aborted_at (sched : list Call) : list Event -> Error -> Prop :=
| aborted_between (done : list Call) (e : Error) :
    done `prefix_of` sched ->
    (forall c, e <> Rejected c) ->
    aborted_at sched (completed done) e
| aborted_inside (done : list Call) (c : Call) :
    (done ++ [c]) `prefix_of` sched ->
    aborted_at sched (completed done ++ [Started c; Failed c]) (Rejected c).

(** A computation that went from [st] to [st'] with result [r] made the
    calls of [sched], in that order and one at a time: all of them when it
    returned, a prefix of them when it threw. *)
Definition ran `{Collaborators} {A : Type} (sched : list Call)
    (st st' : State) (r : Result A) : Prop :=
  exists evs : list Event,
    log st' = log st ++ evs /\
    match r with
    | Ok _ => evs = completed sched
    | Throw e => aborted_at sched evs e
    end.

(** In the log [evs], read as a timeline, every occurrence of [second]
    comes after an occurrence of [first]. *)
Definition precedes (evs : list Event) (first second : Event) : Prop :=
  forall p, evs !! p = Some second -> exists q, q < p /\ evs !! q = Some first.

(** The [text] of a turn, [undefined] when it has none. *)
Definition text_of (turn : JSValue) : option JSValue :=
  match JS.get turn "text" with
  | Ok text => text
  | Throw _ => None
  end.

(** The text spoken for turn [i] of [messages]. *)
Definition turn_text (messages : JSValue) (i : nat) : option JSValue :=
  match JS.get_index messages i with
  | Ok (Some turn) => text_of turn
  | _ => None
  end.

(** [turn'] is [turn] after [turn.audio = ...; turn.lipsync = ...]. *)
Definition enriched (turn turn' : JSValue) : Prop :=
  exists (audio : string) (lipsync with_audio : JSValue),
    JS.set turn "audio" (JStr audio) = Ok with_audio /\
    JS.set with_audio "lipsync" lipsync = Ok turn'.

(** The parsed model output holds the list [turns], bare or wrapped in the
    [messages] field. *)
Definition list_shaped (parsed : JSValue) (turns : list JSValue) : Prop :=
  parsed = JArr turns \/
  exists props, parsed = JObj props /\ JS.assoc "messages" props = Some (JArr turns).

(** The loop has got through the indices below [i] of [messages]. *)
Definition visited (i : nat) (messages : JSValue) : Prop :=
  match messages with
  | JArr elems => i <= length elems
  | JStr s => i <= String.length s
  | JObj props => forall j, j < i -> JS.assoc (pretty j) props <> None
  | _ => i = 0
  end.

(** A value on which [.length] is [undefined]: a number, a boolean, or an
    object with no [length] property. *)
Definition lengthless (v : JSValue) : bool :=
  match v with
  | JBool _ => true
  | JNum _ => true
  | JObj props => match JS.assoc "length" props with None => true | Some _ => false end
  | _ => false
  end.

(** ** A mock environment

    Every collaborator answers at once and ticks a clock; [exec] fails on
    one chosen command line.  The model's reply parses to [output], and
    every transcript holds an empty list of mouth cues. *)

Module Mock.

Definition tick {A : Type} (a : option A) (clock : nat) : nat * option A := (S clock, a).

Definition reply : string := "<model output>".
Definition transcript : string := "<transcript>".

Definition parse (output : JSValue) (text : string) : option JSValue :=
  if String.eqb text reply then Some output
  else if String.eqb text transcript then Some (JObj [("mouthCues", JArr [])])
  else None.

Definition collaborators (output : JSValue) (broken : string) : Collaborators := {|
  World := nat;
  createCompletion := fun _ => tick (Some reply);
  textToSpeech := fun _ _ => tick (Some tt);
  exec := fun command => tick (if String.eqb command broken then None else Some "");
  readFile := fun _ => tick (Some ["I"%byte; "D"%byte; "3"%byte]);
  readFileUtf8 := fun _ => tick (Some transcript);
  JSON_parse := parse output;
  StringToNumber := fun _ => PrimFloat.nan;
  ObjectToPrimitive := fun _ => Some "[object Object]";
|}.

Definition turn (text expression animation : string) : JSValue :=
  JObj [("text", JStr text); ("facialExpression", JStr expression);
        ("animation", JStr animation)].

(** Five turns, two more than the prompt asks for. *)
Definition five : list JSValue :=
  [turn "one" "smile" "Talking_0"; turn "two" "default" "Talking_1";
   turn "three" "sad" "Idle"; turn "four" "smile" "Talking_2";
   turn "five" "surprised" "Laughing"].

(** A turn with an expression and an animation outside the enumerations,
    and a turn with neither. *)
Definition odd : list JSValue :=
  [turn "hi" "wink" "Moonwalk"; JObj [("text", JStr "bye")]].

Definition three : list JSValue :=
  [turn "one" "smile" "Talking_0"; turn "two" "default" "Talking_1";
   turn "three" "sad" "Idle"].

(** An object that is neither a list nor a wrapper of one. *)
Definition stray : JSValue := JObj [("text", JStr "hi")].

(** Nothing is broken, and the model replies with three wrapped turns. *)
Definition healthy : Collaborators :=
  collaborators (JObj [("messages", JArr three)]) "".

(** The viseme extractor fails on the second of the three turns. *)
Definition broken : Collaborators :=
  collaborators (JArr three) (rhubarb_command 1).

Definition state_of (run : @State healthy * Result JSValue) : @State healthy := fst run.

Definition body_of {env : Collaborators} (run : @State env * Result JSValue) : JSValue :=
  match snd run with
  | Ok body => body
  | Throw _ => JNull
  end.

Definition start_healthy : @State healthy := @start healthy 0.

Definition five_run : @State healthy * Result JSValue :=
  Eval vm_compute in @serve healthy (JArr five) start_healthy.

Definition odd_run : @State healthy * Result JSValue :=
  Eval vm_compute in @serve healthy (JArr odd) start_healthy.

Definition broken_run : @State broken * Result JSValue :=
  Eval vm_compute in @chat broken (JObj [("message", JStr "hello")]) (@start broken 0).

End Mock.


(** ** The awaited calls, made on the collaborators *)

(** The log names the calls; these definitions make them.  They do not go
    through the handler's monad: each call is the collaborator of the
    source, applied to the world. *)

Section Replay.

Context `{Collaborators}.

(** Whether a promise resolved. *)
Definition resolved {A : Type} (outcome : option A) : bool :=
  match outcome with
  | Some _ => true
  | None => false
  end.

(** The call [c] made in the world [w]: the world it leaves, and whether
    its promise resolved.  The transcript read-back resolves when the file
    is read and its content parses. *)
Definition invoke (c : Call) (w : World) : World * bool :=
  match c with
  | CreateCompletion content =>
      let '(w', content) := createCompletion content w in (w', resolved content)
  | TextToSpeech fileName textInput =>
      let '(w', done) := textToSpeech fileName textInput w in (w', resolved done)
  | ExecCommand command =>
      let '(w', stdout) := exec command w in (w', resolved stdout)
  | AudioFileToBase64 file =>
      let '(w', data) := readFile file w in (w', resolved data)
  | ReadJsonTranscript file =>
      let '(w', data) := readFileUtf8 file w in (w', resolved (data ≫= JSON_parse))
  end.

(** The calls [cs] made one after the other from the world [w], each in the
    world the one before it left, up to the first whose promise rejects:
    the world that is left, and the call that failed if one did. *)
Fixpoint run_calls (cs : list Call) (w : World) : World * option Call :=
  match cs with
  | [] => (w, None)
  | c :: cs =>
      let '(w', settled) := invoke c w in
      if settled then run_calls cs w' else (w', Some c)
  end.

(** The log [evs] is what happened between the worlds [w] and [w']: every
    call it names was made on its collaborator, once, in the world the
    call before it left, and settled as the log says; nothing else touched
    the world. *)
Inductive replays : World -> list Event -> World -> Prop :=
| replays_nothing (w : World) : replays w [] w
| replays_finished (c : Call) (w w' : World) (evs : list Event) :
    snd (invoke c w) = true ->
    replays (fst (invoke c w)) evs w' ->
    replays w (Started c :: Finished c :: evs) w'
| replays_failed (c : Call) (w w' : World) (evs : list Event) :
    snd (invoke c w) = false ->
    replays (fst (invoke c w)) evs w' ->
    replays w (Started c :: Failed c :: evs) w'.

(** A computation whose log is what happened to the world. *)
Definition faithful {A : Type} (m : M A) : Prop :=
  forall st st' r, m st = (st', r) ->
    exists evs, log st' = log st ++ evs /\ replays (world st) evs (world st').

End Replay.
(** ** More vocabulary: the artifacts of a turn *)

(** The transcoded file of turn [i], named inside the two command lines
    (lines 49 and 54). *)
Definition wav_file (i : nat) : string := "audios/message_" +:+ pretty i +:+ ".wav".

(** [audio] is what [audioFileToBase64] returns for the synthesized file of
    turn [i] in some world; [lipsync] is what [readJsonTranscript] returns
    for its transcript. *)
Definition audio_of_turn `{Collaborators} (i : nat) (audio : string) : Prop :=
  exists (w w' : World) (data : list byte),
    readFile (mp3_file i) w = (w', Some data) /\ audio = Base64.encode data.

Definition lipsync_of_turn `{Collaborators} (i : nat) (lipsync : JSValue) : Prop :=
  exists (w w' : World) (text : string),
    readFileUtf8 (json_file i) w = (w', Some text) /\ JSON_parse text = Some lipsync.

(** [turn'] is [turn] with the audio and the lipsync of turn [i] written. *)
Definition populated `{Collaborators} (i : nat) (turn turn' : JSValue) : Prop :=
  exists (audio : string) (lipsync with_audio : JSValue),
    audio_of_turn i audio /\ lipsync_of_turn i lipsync /\
    JS.set turn "audio" (JStr audio) = Ok with_audio /\
    JS.set with_audio "lipsync" lipsync = Ok turn'.

(** ** A model that does not reply in JSON *)

Module Garbled.

Definition reply : string := "I am sorry, I cannot help with that.".

(** The mock environment, but for the model's reply. *)
Definition collaborators : Collaborators := {|
  World := nat;
  createCompletion := fun _ => Mock.tick (Some reply);
  textToSpeech := @textToSpeech Mock.healthy;
  exec := @exec Mock.healthy;
  readFile := @readFile Mock.healthy;
  readFileUtf8 := @readFileUtf8 Mock.healthy;
  JSON_parse := @JSON_parse Mock.healthy;
  StringToNumber := @StringToNumber Mock.healthy;
  ObjectToPrimitive := @ObjectToPrimitive Mock.healthy;
|}.

End Garbled.

(** ** The [/transcript] route ([src/unnamed/part_000], lines 104-176) *)

(** What a route sends: [res.status(status).send(payload)]; 200 when no
    status is set. *)
Record Response : Type := mkResponse { status : nat; payload : JSValue }.

(** What [fetch] resolves with: the [ok] flag and the [status] of the HTTP
    response, and what [.json()] makes of its body (nothing when the body
    is not JSON and the promise of [.json()] rejects). *)
Record Fetched : Type := mkFetched {
  ok : bool;
  fetched_status : nat;
  json : option JSValue;
}.

(** The transcription service behind [fetch]: from the uploaded bytes to
    the HTTP response, or nothing when [fetch] itself rejects. *)
Class Transcriber `{Collaborators} : Type := {
  listen : list byte -> World -> World * option Fetched;
}.

#[export] Instance Result_bind : MBind Result := fun A B k r =>
  match r with
  | Ok a => k a
  | Throw e => Throw e
  end.

(** [v[i]] when the base may be [undefined]. *)
Definition get_index_member (v : option JSValue) (i : nat) : Result (option JSValue) :=
  match v with
  | None => Throw TypeError
  | Some v => JS.get_index v i
  end.

(** Line 128, [deepgramData.results.channels[0].alternatives[0].transcript]. *)
Definition transcript_of (deepgramData : JSValue) : Result (option JSValue) :=
  results ← JS.get deepgramData "results";
  channels ← JS.get_member results "channels";
  channel ← get_index_member channels 0;
  alternatives ← JS.get_member channel "alternatives";
  alternative ← get_index_member alternatives 0;
  JS.get_member alternative "transcript".

(** Lines 145-151, the one message of the route.  A [text] that is
    [undefined] reads as [undefined] and is left out by [res.send], as an
    absent property is. *)
Definition transcript_turn (texttranscript : option JSValue) : JSValue :=
  JObj (match texttranscript with
        | Some text => [("text", text)]
        | None => []
        end
        ++ [("facialExpression", JStr "smile"); ("animation", JStr "Talking_0")]).

Section Transcript.

Context `{Collaborators} `{!Transcriber}.

(** [try { ... } catch (error) { ... }] *)
Definition try_catch {A : Type} (block : M A) (handler : Error -> M A) : M A :=
  fun st =>
    match block st with
    | (st', Ok a) => (st', Ok a)
    | (st', Throw e) => handler e st'
    end.

(** Lines 113-120: [await fetch(...)], which rejects with a TypeError when
    the service cannot be reached. *)
Definition fetch_listen (buffer : list byte) : M Fetched :=
  fun st =>
    match listen buffer (world st) with
    | (w, Some response) => (mkState w (log st), Ok response)
    | (w, None) => (mkState w (log st), Throw TypeError)
    end.

(** [await response.json()] *)
Definition response_json (response : Fetched) : M JSValue :=
  lift (match json response with
        | Some v => Ok v
        | None => Throw SyntaxError
        end).

Definition no_file_uploaded : Response :=
  mkResponse 400 (JObj [("error", JStr "No file uploaded")]).

Definition internal_server_error : Response :=
  mkResponse 500 (JObj [("error", JStr "Internal server error")]).

(** Lines 104-176.  [file] is [req.file], the uploaded bytes when there are
    some.  The loop of lines 154-167 is the loop of [/chat]. *)
Definition transcript (file : option (list byte)) : M Response :=
  try_catch
    (match file with
     | None => mret no_file_uploaded
     | Some buffer =>
         deepgramResponse ← fetch_listen buffer;
         if negb (ok deepgramResponse) then
           error ← response_json deepgramResponse;
           mret (mkResponse (fetched_status deepgramResponse) (JObj [("error", error)]))
         else
           deepgramData ← response_json deepgramResponse;
           texttranscript ← lift (transcript_of deepgramData);
           let messages := JArr [transcript_turn texttranscript] in
           messages ← enrich (S (passes messages)) 0 messages;
           mret (mkResponse 200 (respond messages))
     end)
    (fun _ => mret internal_server_error).

End Transcript.

(** A transcription service that hears [hello there], one that answers
    with an HTTP error, over the mock environment; and a mock environment
    whose viseme extractor fails on the first turn. *)
Module MockTranscript.

Definition heard : JSValue :=
  JObj [("results",
         JObj [("channels",
                JArr [JObj [("alternatives",
                            JArr [JObj [("transcript", JStr "hello there")]])]])])].

(** The service answers at once with [response]. *)
Definition answering (env : Collaborators) (tick : @World env -> @World env)
    (response : Fetched) : @Transcriber env :=
  {| listen := fun _ w => (tick w, Some response) |}.

Definition deepgram : @Transcriber Mock.healthy :=
  answering Mock.healthy S (mkFetched true 200 (Some heard)).

Definition unauthorized : @Transcriber Mock.healthy :=
  answering Mock.healthy S
    (mkFetched false 401 (Some (JObj [("err_msg", JStr "Invalid credentials.")]))).

Definition no_visemes : Collaborators := Mock.collaborators JNull (rhubarb_command 0).

Definition deepgram_no_visemes : @Transcriber no_visemes :=
  answering no_visemes S (mkFetched true 200 (Some heard)).

Definition upload : list byte := ["R"%byte; "I"%byte; "F"%byte; "F"%byte].

Definition heard_run : @State Mock.healthy * Result Response :=
  Eval vm_compute in @transcript Mock.healthy deepgram (Some upload) Mock.start_healthy.

Definition no_visemes_run : @State no_visemes * Result Response :=
  Eval vm_compute in
    @transcript no_visemes deepgram_no_visemes (Some upload) (@start no_visemes 0).

Definition heard_response : Response :=
  Eval vm_compute in
    match snd heard_run with
    | Ok response => response
    | Throw _ => internal_server_error
    end.

Definition heard_messages : JSValue :=
  Eval vm_compute in
    match JS.get (payload heard_response) "messages" with
    | Ok (Some messages) => messages
    | _ => JNull
    end.

End MockTranscript.

(** ** The message queue of the front end ([src/unnamed/part_002]) *)

Module Queue.

(** [...resp] in an array literal: the elements of an array, the
    characters of a string (the strings of this model are made of code
    units below 256, so a character is a code unit), a TypeError on
    anything else, [undefined] and [null] included. *)
Definition spread (resp : option JSValue) : Result (list JSValue) :=
  match resp with
  | Some (JArr elems) => Ok elems
  | Some (JStr s) => Ok ((fun c => JStr (String c EmptyString)) <$> list_ascii_of_string s)
  | _ => Throw TypeError
  end.

(** Line 31, the updater [(messages) => [...messages, ...resp]]. *)
Definition appendResponse (messages : list JSValue) (resp : option JSValue)
  : Result (list JSValue) :=
  match spread resp with
  | Ok elems => Ok (messages ++ elems)
  | Throw e => Throw e
  end.

(** Lines 37-39, the updater [(messages) => messages.slice(1)]. *)
Definition onMessagePlayed (messages : list JSValue) : list JSValue := drop 1 messages.

(** Lines 42-48, the message the effect sets for a list of messages. *)
Definition currentMessage (messages : list JSValue) : JSValue :=
  if Nat.ltb 0 (length messages) then default JNull (messages !! 0) else JNull.

End Queue.

(** ** The note taken by voice ([src/unnamed/part_001], lines 128-172) *)

Module Notes.

(** [s.indexOf(" ")]: the index of the first space, -1 when there is none. *)
Fixpoint indexOf_space (s : string) : Z :=
  match s with
  | EmptyString => -1
  | String c rest =>
      if Ascii.eqb c " " then 0
      else
        let n := indexOf_space rest in
        if Z.ltb n 0 then -1 else n + 1
  end%Z.

Fixpoint string_drop (n : nat) (s : string) : string :=
  match n, s with
  | O, _ => s
  | S n, String _ rest => string_drop n rest
  | S _, EmptyString => EmptyString
  end.

(** [s.substring(start)]: a negative start counts as 0, one past the end
    as the end. *)
Definition substring (start : Z) (s : string) : string := string_drop (Z.to_nat start) s.

(** [s.toLowerCase()] on the strings of this model, made of code units
    below 256: the letters [A] to [Z] and the capital letters of Latin-1
    (0xC0 to 0xDE, the multiplication sign 0xD7 apart) move up by 32, every
    other code unit stays. *)
Definition lower_unit (c : ascii) : ascii :=
  let n := Ascii.nat_of_ascii c in
  if (Nat.leb 65 n && Nat.leb n 90)
     || (Nat.leb 192 n && Nat.leb n 222 && negb (Nat.eqb n 215))
  then Ascii.ascii_of_nat (n + 32)
  else c.

Fixpoint toLowerCase (s : string) : string :=
  match s with
  | EmptyString => EmptyString
  | String c rest => String (lower_unit c) (toLowerCase rest)
  end.

(** [s.startsWith(searchString)] *)
Definition startsWith (s searchString : string) : bool := String.prefix searchString s.

(** Lines 128-129, the two variables the handlers of the recognition share,
    and the value of the text field. *)
Record Recognition : Type := mkRecognition {
  isNoting : bool;
  noteContent : string;
  input_value : string;
}.

(** Line 165, the test that opens a note (without [!isNoting]). *)
Definition asks_for_a_note (lastTranscript : string) : bool :=
  startsWith (toLowerCase lastTranscript) "note"
  || startsWith (toLowerCase lastTranscript) "take notes".

(** Lines 161-172, [recognition.onresult], for an event whose last result
    has the transcript [lastTranscript] and the flag [isFinal]. *)
Definition onresult (s : Recognition) (lastTranscript : string) (isFinal : bool)
  : Recognition :=
  if negb (isNoting s) && asks_for_a_note lastTranscript then
    mkRecognition true
      (substring (indexOf_space lastTranscript + 1) lastTranscript)
      lastTranscript
  else if isNoting s && isFinal then
    mkRecognition (isNoting s) (noteContent s +:+ " " +:+ lastTranscript) lastTranscript
  else
    mkRecognition (isNoting s) (noteContent s) lastTranscript.

(** Lines 128-129 and the empty text field. *)
Definition idle : Recognition := mkRecognition false "" "".

Fixpoint has_space (s : string) : bool :=
  match s with
  | EmptyString => false
  | String c rest => Ascii.eqb c " " || has_space rest
  end.

End Notes.

(** ** The [/rag] route ([src/Donna-Backend_ver 3/index_text.js], lines 179-241) *)

(** The knowledge base and the summarizing model. *)
Class KnowledgeBase `{Collaborators} : Type := {
  Vector : Type;
  (** [pinecone.index("donna-cloud-kb")]; nothing when it throws *)
  pineconeIndex : World -> World * option unit;
  (** [openai.embeddings.create], from the input to [data[0].embedding] *)
  createEmbedding : JSValue -> World -> World * option Vector;
  (** [index.query], from the vector and [topK] to [matches], an array by
      the contract of the client *)
  queryIndex : Vector -> nat -> World -> World * option (list JSValue);
  (** [openai.chat.completions.create] of line 206, from the user content to
      [choices[0].message.content] *)
  createSummary : string -> World -> World * option JSValue;
  (** ToString of a number, an array or an object; nothing when it throws *)
  ToStringOther : JSValue -> option string;
}.

Definition newline : string := String (Ascii.ascii_of_nat 10) EmptyString.
Definition double_quote : string := String (Ascii.ascii_of_nat 34) EmptyString.

Section Rag.

Context `{Collaborators} `{!KnowledgeBase}.

(** A call of this route, which keeps no log.  No handler of the route
    looks at the error it catches, so a rejection stands as a TypeError. *)
Definition attempt {A : Type} (run : World -> World * option A) : M A :=
  fun st =>
    match run (world st) with
    | (w, Some a) => (mkState w (log st), Ok a)
    | (w, None) => (mkState w (log st), Throw TypeError)
    end.

Definition ToString (v : JSValue) : Result string :=
  match v with
  | JStr s => Ok s
  | JNull => Ok "null"
  | JBool true => Ok "true"
  | JBool false => Ok "false"
  | _ =>
      match ToStringOther v with
      | Some s => Ok s
      | None => Throw TypeError
      end
  end.

(** [Array.prototype.join]: [undefined] and [null] count as the empty
    string. *)
Definition join_element (v : option JSValue) : Result string :=
  match v with
  | None => Ok ""
  | Some JNull => Ok ""
  | Some v => ToString v
  end.

Fixpoint join (separator : string) (elems : list (option JSValue)) : Result string :=
  match elems with
  | [] => Ok ""
  | [v] => join_element v
  | v :: rest =>
      s ← join_element v;
      t ← join separator rest;
      Ok (s +:+ separator +:+ t)
  end.

(** [r => r.metadata.text] *)
Definition metadata_text (r : JSValue) : Result (option JSValue) :=
  metadata ← JS.get r "metadata";
  JS.get_member metadata "text".

Fixpoint map_metadata_text (results : list JSValue) : Result (list (option JSValue)) :=
  match results with
  | [] => Ok []
  | r :: rest =>
      text ← metadata_text r;
      texts ← map_metadata_text rest;
      Ok (text :: texts)
  end.

(** Lines 179-201; [topK] is 3 when it is not given. *)
Definition queryPinecone (query : JSValue) (topK : nat) : M (list JSValue) :=
  _ ← attempt pineconeIndex;
  try_catch
    (queryEmbedding ← attempt (createEmbedding query);
     attempt (queryIndex queryEmbedding topK))
    (fun _ => mret []).

(** Line 210, the user content of the summary request. *)
Definition summary_prompt (userQuery contentToSummarize : string) : string :=
  "Summarize the following information in response to the query: "
    +:+ double_quote +:+ userQuery +:+ double_quote +:+ newline +:+ newline
    +:+ contentToSummarize.

(** Lines 203-219. *)
Definition summarizeResults (results : list JSValue) (userQuery : JSValue) : M JSValue :=
  texts ← lift (map_metadata_text results);
  contentToSummarize ← lift (join (newline +:+ newline) texts);
  try_catch
    (query ← lift (ToString userQuery);
     attempt (createSummary (summary_prompt query contentToSummarize)))
    (fun _ => mret (JStr "Error generating summary")).

Definition message_is_required : Response :=
  mkResponse 400 (JObj [("error", JStr "Message is required")]).

(** Lines 222-241.  [Ok None] is the handler returning with nothing
    sent. *)
Definition rag (body : JSValue) : M (option Response) :=
  userMessage ← lift (JS.get body "message");
  match userMessage with
  | None => mret (Some message_is_required)
  | Some userMessage =>
      if negb (JS.truthy userMessage) then mret (Some message_is_required)
      else
        try_catch
          (results ← queryPinecone userMessage 3;
           if Nat.ltb 0 (length results) then
             summary ← summarizeResults results userMessage;
             mret (Some (mkResponse 200 summary))
           else mret None)
          (fun _ => mret (Some internal_server_error))
  end.

(** The lookup for [query] that starts in world [w] ends in world [w']
    with nothing found: the embedding fails, the query fails, or there is no
    match. *)
Definition finds_nothing (query : JSValue) (topK : nat) (w w' : World) : Prop :=
  createEmbedding query w = (w', None) \/
  exists vector w1,
    createEmbedding query w = (w1, Some vector) /\
    (queryIndex vector topK w1 = (w', None) \/ queryIndex vector topK w1 = (w', Some [])).

End Rag.

(** A knowledge base over the mock environment: the embedding succeeds or
    not, the query finds [matches], the summary is [summary] or fails. *)
Module MockRag.

Definition knowledge_base (env : Collaborators) (tick : @World env -> @World env)
    (embeds : bool) (matches : list JSValue) (summary : option JSValue)
  : @KnowledgeBase env :=
  {| Vector := unit;
     pineconeIndex := fun w => (w, Some tt);
     createEmbedding := fun _ w => (tick w, if embeds then Some tt else None);
     queryIndex := fun _ _ w => (tick w, Some matches);
     createSummary := fun _ w => (tick w, summary);
     ToStringOther := fun _ => Some "[object Object]" |}.

Definition kb (embeds : bool) (matches : list JSValue) (summary : option JSValue)
  : @KnowledgeBase Mock.healthy :=
  knowledge_base Mock.healthy S embeds matches summary.

Definition found : list JSValue :=
  [JObj [("id", JStr "doc-1"); ("metadata", JObj [("text", JStr "Office hours are 9 to 5.")])]].

Definition question : JSValue := JObj [("message", JStr "kb office hours")].

End MockRag.

(** * Properties *)

(** ** Base64 *)

Section Base64_facts.

Import Base64.

Lemma Z_of_byte_range (b : byte) : (0 <= Z_of_byte b < 256)%Z.
Proof.
  unfold Z_of_byte. pose proof (Byte.to_N_bounded b). lia.
Qed.

Lemma byte_of_Z_of_byte (b : byte) : byte_of_Z (Z_of_byte b) = Some b.
Proof.
  unfold byte_of_Z, Z_of_byte. rewrite N2Z.id. apply Byte.of_to_N.
Qed.

Lemma byte_of_Z_eq (z : Z) (b : byte) : z = Z_of_byte b -> byte_of_Z z = Some b.
Proof. intros ->. apply byte_of_Z_of_byte. Qed.

(** The sixty-four characters of the alphabet are distinct and none is the
    padding character: checked by running through them. *)
Lemma alphabet_checked : forallb alphabet_ok (seq 0 64) = true.
Proof. vm_compute. reflexivity. Qed.

Lemma alphabet_ok_at (n : Z) : (0 <= n < 64)%Z -> alphabet_ok (Z.to_nat n) = true.
Proof.
  intros Hn. pose proof alphabet_checked as Hall.
  rewrite List.forallb_forall in Hall. apply Hall, List.in_seq. lia.
Qed.

Lemma index_of_char_of (n : Z) : (0 <= n < 64)%Z -> index_of (char_of n) = Some n.
Proof.
  intros Hn. pose proof (alphabet_ok_at n Hn) as Hk.
  unfold alphabet_ok in Hk. rewrite Z2Nat.id in Hk by lia.
  destruct (index_of (char_of n)) as [m|]; [|discriminate].
  apply andb_prop in Hk as [Hm _]. apply Z.eqb_eq in Hm. by subst.
Qed.

Lemma char_of_not_pad (n : Z) : (0 <= n < 64)%Z -> Ascii.eqb (char_of n) pad = false.
Proof.
  intros Hn. pose proof (alphabet_ok_at n Hn) as Hk.
  unfold alphabet_ok in Hk. rewrite Z2Nat.id in Hk by lia.
  destruct (index_of (char_of n)); [|discriminate].
  apply andb_prop in Hk as [_ Hp]. by apply negb_true_iff in Hp.
Qed.

(** The three shapes of a group, decoded. *)
Lemma quantum3_encoded (a b c : byte) :
  quantum3 (Z_of_byte a / 4) (Z_of_byte a mod 4 * 16 + Z_of_byte b / 16)
    (Z_of_byte b mod 16 * 4 + Z_of_byte c / 64) (Z_of_byte c mod 64)
  = Some [a; b; c].
Proof.
  pose proof (Z_of_byte_range a). pose proof (Z_of_byte_range b).
  pose proof (Z_of_byte_range c). unfold quantum3.
  match goal with |- context [byte_of_Z ?z ≫= _] =>
    rewrite (byte_of_Z_eq z a) by (Z.div_mod_to_equations; lia) end. cbn.
  match goal with |- context [byte_of_Z ?z ≫= _] =>
    rewrite (byte_of_Z_eq z b) by (Z.div_mod_to_equations; lia) end. cbn.
  match goal with |- context [byte_of_Z ?z ≫= _] =>
    rewrite (byte_of_Z_eq z c) by (Z.div_mod_to_equations; lia) end.
  reflexivity.
Qed.

Lemma quantum2_encoded (a b : byte) :
  quantum2 (Z_of_byte a / 4) (Z_of_byte a mod 4 * 16 + Z_of_byte b / 16)
    (Z_of_byte b mod 16 * 4)
  = Some [a; b].
Proof.
  pose proof (Z_of_byte_range a). pose proof (Z_of_byte_range b). unfold quantum2.
  match goal with |- context [byte_of_Z ?z ≫= _] =>
    rewrite (byte_of_Z_eq z a) by (Z.div_mod_to_equations; lia) end. cbn.
  match goal with |- context [byte_of_Z ?z ≫= _] =>
    rewrite (byte_of_Z_eq z b) by (Z.div_mod_to_equations; lia) end.
  cbn. replace (Z_of_byte b mod 16 * 4 mod 4)%Z with 0%Z
    by (Z.div_mod_to_equations; lia).
  reflexivity.
Qed.

Lemma quantum1_encoded (a : byte) :
  quantum1 (Z_of_byte a / 4) (Z_of_byte a mod 4 * 16) = Some [a].
Proof.
  pose proof (Z_of_byte_range a). unfold quantum1.
  match goal with |- context [byte_of_Z ?z ≫= _] =>
    rewrite (byte_of_Z_eq z a) by (Z.div_mod_to_equations; lia) end.
  cbn. replace (Z_of_byte a mod 4 * 16 mod 16)%Z with 0%Z
    by (Z.div_mod_to_equations; lia).
  reflexivity.
Qed.

Lemma decode_last_group (c1 c2 c3 c4 : ascii) :
  decode (String c1 (String c2 (String c3 (String c4 "")))) =
    if Ascii.eqb c4 pad then
      if Ascii.eqb c3 pad then
        n1 ← index_of c1; n2 ← index_of c2; quantum1 n1 n2
      else
        n1 ← index_of c1; n2 ← index_of c2; n3 ← index_of c3; quantum2 n1 n2 n3
    else
      n1 ← index_of c1; n2 ← index_of c2; n3 ← index_of c3; n4 ← index_of c4;
      quantum3 n1 n2 n3 n4.
Proof. reflexivity. Qed.

Lemma decode_inner_group (c1 c2 c3 c4 c : ascii) (s : string) :
  decode (String c1 (String c2 (String c3 (String c4 (String c s))))) =
    n1 ← index_of c1; n2 ← index_of c2; n3 ← index_of c3; n4 ← index_of c4;
    q ← quantum3 n1 n2 n3 n4;
    tl ← decode (String c s);
    Some (q ++ tl).
Proof. reflexivity. Qed.

Lemma encode_nonempty (a : byte) (data : list byte) :
  exists c s, encode (a :: data) = String c s.
Proof.
  destruct data as [|b [|c rest]]; cbn [encode]; eauto.
Qed.

Lemma encode_three (a b c : byte) (rest : list byte) :
  encode (a :: b :: c :: rest) =
    String (char_of (Z_of_byte a / 4))
      (String (char_of (Z_of_byte a mod 4 * 16 + Z_of_byte b / 16))
         (String (char_of (Z_of_byte b mod 16 * 4 + Z_of_byte c / 64))
            (String (char_of (Z_of_byte c mod 64)) (encode rest)))).
Proof. reflexivity. Qed.

Ltac sextet :=
  match goal with
  | |- context [index_of (char_of ?n)] =>
      rewrite (index_of_char_of n) by (Z.div_mod_to_equations; lia)
  | |- context [Ascii.eqb (char_of ?n) pad] =>
      rewrite (char_of_not_pad n) by (Z.div_mod_to_equations; lia)
  end.

Lemma decode_encode_upto (n : nat) (data : list byte) :
  length data <= n -> decode (encode data) = Some data.
Proof.
  revert data. induction n as [n IH] using lt_wf_ind. intros data Hlen.
  destruct data as [|a [|b [|c rest]]].
  - reflexivity.
  - pose proof (Z_of_byte_range a). cbn [encode].
    rewrite decode_last_group. cbn [Ascii.eqb pad]. change (Ascii.eqb "=" "=") with true.
    cbn match. repeat sextet. cbn. apply quantum1_encoded.
  - pose proof (Z_of_byte_range a). pose proof (Z_of_byte_range b). cbn [encode].
    rewrite decode_last_group. change (Ascii.eqb pad pad) with true. cbn match.
    repeat sextet. cbn. apply quantum2_encoded.
  - pose proof (Z_of_byte_range a). pose proof (Z_of_byte_range b).
    pose proof (Z_of_byte_range c). rewrite encode_three.
    destruct rest as [|d rest'].
    + cbn [encode]. rewrite decode_last_group. repeat sextet. cbn.
      apply quantum3_encoded.
    + destruct (encode_nonempty d rest') as (c' & s' & Henc).
      rewrite Henc, decode_inner_group, <- Henc. repeat sextet.
      cbn [mbind option_bind]. rewrite quantum3_encoded.
      cbn [mbind option_bind].
      rewrite (IH (n - 3)) by (cbn in Hlen |- *; lia). reflexivity.
Qed.

Lemma decode_encode (data : list byte) : decode (encode data) = Some data.
Proof. by apply (decode_encode_upto (length data)). Qed.

End Base64_facts.

(** ** Logs *)

Lemma completed_app (cs cs' : list Call) :
  completed (cs ++ cs') = completed cs ++ completed cs'.
Proof. induction cs as [|c cs IH]; cbn; [done | by rewrite IH]. Qed.

Lemma completed_no_failure (cs : list Call) (c : Call) : ~ In (Failed c) (completed cs).
Proof.
  induction cs as [|c' cs IH]; cbn; [tauto |].
  intros [Hc | [Hc | Hc]]; [discriminate | discriminate | tauto].
Qed.

Lemma aborted_at_failure (sched : list Call) (evs : list Event) (e : Error) (c : Call) :
  aborted_at sched evs e -> In (Failed c) evs -> e = Rejected c.
Proof.
  intros [done e' _ _ | done c' _] Hin.
  - by apply completed_no_failure in Hin.
  - apply in_app_or in Hin as [Hin | Hin].
    + by apply completed_no_failure in Hin.
    + cbn in Hin. destruct Hin as [Hin | [Hin | []]]; congruence.
Qed.

Lemma aborted_at_longer (sched more : list Call) (evs : list Event) (e : Error) :
  aborted_at sched evs e -> aborted_at (sched ++ more) evs e.
Proof.
  intros [done e' Hpre He | done c Hpre].
  - apply aborted_between; [by apply prefix_app_r | done].
  - apply aborted_inside. by apply prefix_app_r.
Qed.

Lemma aborted_at_later (before sched : list Call) (evs : list Event) (e : Error) :
  aborted_at sched evs e -> aborted_at (before ++ sched) (completed before ++ evs) e.
Proof.
  intros [done e' Hpre He | done c Hpre].
  - rewrite <- completed_app. apply aborted_between; [by apply prefix_app | done].
  - rewrite app_assoc, <- completed_app. apply aborted_inside.
    rewrite <- app_assoc. by apply prefix_app.
Qed.

(** ** The order of the calls in a log *)

Lemma string_length_app (s t : string) :
  String.length (s +:+ t) = String.length s + String.length t.
Proof. induction s as [|c s IH]; simpl; [done | by rewrite IH]. Qed.

Lemma string_app_same_length (a b x y : string) :
  String.length a = String.length b -> a +:+ x = b +:+ y -> a = b.
Proof.
  revert b. induction a as [|c a IH]; intros [|d b]; cbn; try done.
  intros [= Hlen] [= -> Heq]. f_equal. by apply IH.
Qed.

Lemma mp3_file_inj (i j : nat) : mp3_file i = mp3_file j -> i = j.
Proof.
  unfold mp3_file. intros Heq%(inj (String.app _)).
  apply (inj pretty), (string_app_same_length _ _ ".mp3" ".mp3"); [|done].
  apply (f_equal String.length) in Heq. rewrite !string_length_app in Heq. lia.
Qed.

Lemma ffmpeg_command_inj (i j : nat) : ffmpeg_command i = ffmpeg_command j -> i = j.
Proof.
  unfold ffmpeg_command. intros Heq%(inj (String.app _)).
  apply (inj pretty). eapply string_app_same_length; [|exact Heq].
  apply (f_equal String.length) in Heq. rewrite !string_length_app in Heq. lia.
Qed.

Lemma rhubarb_command_inj (i j : nat) : rhubarb_command i = rhubarb_command j -> i = j.
Proof.
  unfold rhubarb_command. intros Heq%(inj (String.app _)).
  apply (inj pretty). eapply string_app_same_length; [|exact Heq].
  apply (f_equal String.length) in Heq. rewrite !string_length_app in Heq. lia.
Qed.

Lemma length_completed (cs : list Call) : length (completed cs) = 2 * length cs.
Proof. induction cs as [|c cs IH]; cbn; [done | lia]. Qed.

Lemma completed_lookup (cs : list Call) (n : nat) (c : Call) :
  cs !! n = Some c ->
  completed cs !! (2 * n) = Some (Started c) /\
  completed cs !! (2 * n + 1) = Some (Finished c).
Proof.
  revert n. induction cs as [|c0 cs IH]; intros [|n]; cbn; try done.
  - by intros [= ->].
  - intros Hn. replace (n + S (n + 0)) with (S (2 * n)) by lia.
    replace (n + S (n + 0) + 1) with (S (2 * n + 1)) by lia. cbn. by apply IH.
Qed.

Lemma completed_started (cs : list Call) (p : nat) (c : Call) :
  completed cs !! p = Some (Started c) -> exists n, p = 2 * n /\ cs !! n = Some c.
Proof.
  revert p. induction cs as [|c0 cs IH]; intros p; cbn; [done |].
  destruct p as [|[|p]]; cbn.
  - intros [= ->]. by exists 0.
  - discriminate.
  - intros (n & -> & Hn)%IH. exists (S n). split; [lia | done].
Qed.

(** In a log that follows a schedule, a call that has started is a call of
    the schedule, and every call scheduled before it has finished. *)
Lemma started_after_the_earlier (sched : list Call) (evs : list Event) (p : nat)
    (c : Call) :
  (evs = completed sched \/ exists e, aborted_at sched evs e) ->
  evs !! p = Some (Started c) ->
  exists n,
    p = 2 * n /\ sched !! n = Some c /\
    forall m c', m < n -> sched !! m = Some c' ->
      evs !! (2 * m + 1) = Some (Finished c').
Proof.
  intros Hevs Hp.
  assert (exists done tail,
            evs = completed done ++ tail /\
            (tail = [] /\ done `prefix_of` sched \/
             exists c0, tail = [Started c0; Failed c0] /\
                        (done ++ [c0]) `prefix_of` sched))
    as (done & tail & -> & Htail).
  { destruct Hevs as [-> | [e [done e' Hpre _ | done c0 Hpre]]].
    - exists sched, []. rewrite app_nil_r. split; [done |]. by left.
    - exists done, []. rewrite app_nil_r. split; [done |]. by left.
    - exists done, [Started c0; Failed c0]. split; [done |]. right. by exists c0. }
  assert (forall m c', done !! m = Some c' ->
            (completed done ++ tail) !! (2 * m + 1) = Some (Finished c')) as Hdone.
  { intros m c' Hm. apply lookup_app_l_Some. by apply completed_lookup. }
  apply lookup_app_Some in Hp as [Hp | [Hlen Hp]].
  - apply completed_started in Hp as (n & -> & Hn). exists n. split; [done |].
    assert (done `prefix_of` sched) as Hpre.
    { destruct Htail as [[_ Hpre] | (c0 & _ & Hpre)]; [done |].
      etrans; [apply prefix_app_r; reflexivity | done]. }
    split; [by eapply prefix_lookup_Some |].
    intros m c' Hm Hc'. apply Hdone.
    destruct (done !! m) as [c''|] eqn:Em.
    + by rewrite (prefix_lookup_Some _ _ _ _ Em Hpre) in Hc'.
    + apply lookup_ge_None in Em. apply lookup_lt_Some in Hn. lia.
  - destruct Htail as [[-> _] | (c0 & -> & Hpre)]; [done |].
    rewrite length_completed in Hlen, Hp.
    destruct (p - 2 * length done) as [|[|d]] eqn:Ed; cbn in Hp; try done.
    injection Hp as <-. exists (length done). split; [lia |]. split.
    + eapply prefix_lookup_Some; [|exact Hpre]. by apply list_lookup_middle.
    + intros m c' Hm Hc'. apply Hdone.
      rewrite <- Hc'. symmetry. apply lookup_lt_is_Some_2 in Hm as [c'' Hc''].
      rewrite Hc''. eapply prefix_lookup_Some; [|exact Hpre].
      by apply lookup_app_l_Some.
Qed.

(** The schedule is made of blocks of five calls, one block per turn. *)
Lemma schedule_block (texts : list (option JSValue)) :
  forall (i k j : nat) (text : option JSValue),
    texts !! k = Some text -> j < 5 ->
    schedule i texts !! (5 * k + j) = turn_calls (i + k) text !! j.
Proof.
  induction texts as [|t texts IH]; intros i k j text; [done |].
  destruct k as [|k]; cbn [schedule].
  - intros [= ->] Hj. rewrite Nat.add_0_r. by apply lookup_app_l.
  - intros Hk Hj. rewrite lookup_app_r by (cbn; lia).
    replace (5 * S k + j - length (turn_calls i t)) with (5 * k + j) by (cbn; lia).
    rewrite (IH (S i) k j text Hk Hj). by replace (S i + k) with (i + S k) by lia.
Qed.

Lemma schedule_lookup (texts : list (option JSValue)) :
  forall (i n : nat) (c : Call),
    schedule i texts !! n = Some c ->
    exists k j text,
      n = 5 * k + j /\ j < 5 /\ texts !! k = Some text /\
      turn_calls (i + k) text !! j = Some c.
Proof.
  induction texts as [|t texts IH]; intros i n c; [done |]. cbn [schedule].
  intros [Hn | [Hlen Hn]]%lookup_app_Some.
  - exists 0, n, t. pose proof (lookup_lt_Some _ _ _ Hn) as Hlt. cbn in Hlt.
    rewrite Nat.add_0_r. by repeat split.
  - apply IH in Hn as (k & j & text & Hn & Hj & Hk & Hc). cbn in Hlen, Hn.
    exists (S k), j, text. repeat split; [lia | done | done |].
    by replace (i + S k) with (S i + k) by lia.
Qed.

Lemma exec_command_eq (s s' : string) :
  Some (ExecCommand s) = Some (ExecCommand s') -> s = s'.
Proof. by intros [= ->]. Qed.

Lemma text_to_speech_eq (f f' : string) (t t' : option JSValue) :
  Some (TextToSpeech f t) = Some (TextToSpeech f' t') -> f = f'.
Proof. by intros [= -> _]. Qed.

(** The three orderings between the external stages, read off a log that
    follows the schedule. *)
Lemma stages_in_order (texts : list (option JSValue)) (evs : list Event) (k : nat) :
  (evs = completed (schedule 0 texts) \/
   exists e, aborted_at (schedule 0 texts) evs e) ->
  (forall p, evs !! p = Some (Started (ExecCommand (ffmpeg_command k))) ->
     exists q text, q < p /\
       evs !! q = Some (Finished (TextToSpeech (mp3_file k) text))) /\
  precedes evs (Finished (ExecCommand (ffmpeg_command k)))
    (Started (ExecCommand (rhubarb_command k))) /\
  (forall text,
     precedes evs (Finished (ExecCommand (rhubarb_command k)))
       (Started (TextToSpeech (mp3_file (S k)) text))).
Proof.
  intros Hevs. repeat split.
  - intros p Hp.
    destruct (started_after_the_earlier _ _ _ _ Hevs Hp) as (n & -> & Hn & Hbefore).
    destruct (schedule_lookup _ _ _ _ Hn) as (k' & j & text & -> & Hj & Hk' & Hc).
    destruct j as [|[|[|[|[|j]]]]]; try lia;
      cbn -[ffmpeg_command rhubarb_command mp3_file json_file] in Hc;
      try discriminate.
    apply exec_command_eq, ffmpeg_command_inj in Hc as ->.
    exists (2 * (5 * k + 0) + 1), text. split; [lia |].
    apply Hbefore; [lia |]. by rewrite (schedule_block _ 0 k 0 text) by (done || lia).
  - intros p Hp.
    destruct (started_after_the_earlier _ _ _ _ Hevs Hp) as (n & -> & Hn & Hbefore).
    destruct (schedule_lookup _ _ _ _ Hn) as (k' & j & text & -> & Hj & Hk' & Hc).
    destruct j as [|[|[|[|[|j]]]]]; try lia;
      cbn -[ffmpeg_command rhubarb_command mp3_file json_file] in Hc;
      try discriminate.
    apply exec_command_eq, rhubarb_command_inj in Hc as ->.
    exists (2 * (5 * k + 1) + 1). split; [lia |].
    apply Hbefore; [lia |]. by rewrite (schedule_block _ 0 k 1 text) by (done || lia).
  - intros text p Hp.
    destruct (started_after_the_earlier _ _ _ _ Hevs Hp) as (n & -> & Hn & Hbefore).
    destruct (schedule_lookup _ _ _ _ Hn) as (k' & j & text' & -> & Hj & Hk' & Hc).
    destruct j as [|[|[|[|[|j]]]]]; try lia;
      cbn -[ffmpeg_command rhubarb_command mp3_file json_file] in Hc;
      try discriminate.
    apply text_to_speech_eq, mp3_file_inj in Hc as ->.
    assert (is_Some (texts !! k)) as [text0 Hk].
    { apply lookup_lt_is_Some. apply lookup_lt_Some in Hk'. lia. }
    exists (2 * (5 * k + 2) + 1). split; [lia |].
    apply Hbefore; [lia |]. by rewrite (schedule_block _ 0 k 2 text0) by (done || lia).
Qed.

(** ** The handler's monad *)

Lemma bind_run `{Collaborators} {A B : Type} (m : M A) (k : A -> M B) (st : State) :
  (m ≫= k) st =
    match m st with
    | (st', Ok a) => k a st'
    | (st', Throw e) => (st', Throw e)
    end.
Proof. reflexivity. Qed.

(** A run that returned: each of its steps returned. *)
Tactic Notation "returned" hyp(H) "as" ident(st) ident(a) ident(E) :=
  rewrite bind_run in H;
  match type of H with
  | match ?m ?s with _ => _ end = _ =>
      destruct (m s) as [st [a | ?]] eqn:E; [| discriminate H]
  end.

Section Backend_facts.

Context `{Collaborators}.

Lemma call_run {A : Type} (c : Call) (run : World -> World * option A)
    (st st' : State) (r : Result A) :
  call c run st = (st', r) ->
  (exists a, r = Ok a /\ run (world st) = (world st', Some a) /\
             log st' = log st ++ completed [c]) \/
  (r = Throw (Rejected c) /\ run (world st) = (world st', None) /\
   log st' = log st ++ [Started c; Failed c]).
Proof.
  unfold call. destruct (run (world st)) as [w [a|]]; intros [= <- <-]; cbn; eauto.
Qed.

Lemma ran_call {A : Type} (c : Call) (run : World -> World * option A)
    (st st' : State) (r : Result A) :
  call c run st = (st', r) -> ran [c] st st' r.
Proof.
  intros [(a & -> & _ & Hlog) | (-> & _ & Hlog)]%call_run.
  - by exists (completed [c]).
  - exists ([Started c; Failed c]). split; [done |].
    by apply (aborted_inside [c] [] c).
Qed.

Lemma ran_pure {A : Type} (st : State) (a : A) :
  ran [] st st (Ok a).
Proof. exists []. by rewrite app_nil_r. Qed.

Lemma ran_TypeError {A : Type} (sched : list Call) (st : State) (e : Error) :
  (forall c, e <> Rejected c) -> ran (A := A) sched st st (Throw e).
Proof.
  intros He. exists []. rewrite app_nil_r. split; [done |].
  apply (aborted_between sched [] e); [apply prefix_nil | done].
Qed.

Lemma ran_longer {A B : Type} (sched more : list Call) (st st' : State) (e : Error) :
  ran (A := A) sched st st' (Throw e) -> ran (A := B) (sched ++ more) st st' (Throw e).
Proof.
  intros (evs & Hlog & Hab). exists evs. split; [done |]. by apply aborted_at_longer.
Qed.

Lemma ran_seq {A B : Type} (s1 s2 : list Call) (st st1 st' : State) (a : A)
    (r : Result B) :
  ran s1 st st1 (Ok a) -> ran s2 st1 st' r -> ran (s1 ++ s2) st st' r.
Proof.
  intros (evs1 & Hlog1 & ->) (evs2 & Hlog2 & Hr).
  exists (completed s1 ++ evs2). split; [by rewrite Hlog2, Hlog1, app_assoc |].
  destruct r as [b | e].
  - by rewrite completed_app, Hr.
  - by apply aborted_at_later.
Qed.

Lemma ran_bind {A B : Type} (m : M A) (k : A -> M B) (s1 s2 : list Call)
    (st st' : State) (r : Result B) :
  (forall st1 r1, m st = (st1, r1) -> ran s1 st st1 r1) ->
  (forall a st1, m st = (st1, Ok a) -> k a st1 = (st', r) -> ran s2 st1 st' r) ->
  (m ≫= k) st = (st', r) ->
  ran (s1 ++ s2) st st' r.
Proof.
  intros Hm Hk. rewrite bind_run.
  destruct (m st) as [st1 [a | e]] eqn:Em; intros Hrun.
  - eapply ran_seq; [by apply Hm | by eapply Hk].
  - injection Hrun as <- <-. apply (ran_longer (A := A)). by apply Hm.
Qed.

(** The synchronous steps throw nothing but TypeErrors. *)
Lemma get_error (v : JSValue) (k : string) (e : Error) :
  JS.get v k = Throw e -> e = TypeError.
Proof. destruct v; cbn; congruence. Qed.

Lemma get_member_error (v : option JSValue) (k : string) (e : Error) :
  JS.get_member v k = Throw e -> e = TypeError.
Proof. destruct v as [v|]; cbn; [apply get_error | congruence]. Qed.

Lemma get_index_error (v : JSValue) (i : nat) (e : Error) :
  JS.get_index v i = Throw e -> e = TypeError.
Proof. destruct v; cbn; congruence. Qed.

Lemma set_error (v : JSValue) (k : string) (x : JSValue) (e : Error) :
  JS.set v k x = Throw e -> e = TypeError.
Proof. destruct v; cbn; congruence. Qed.

Lemma set_member_error (v : option JSValue) (k : string) (x : JSValue) (e : Error) :
  JS.set_member v k x = Throw e -> e = TypeError.
Proof. destruct v as [v|]; cbn; [apply set_error | congruence]. Qed.

Lemma loop_test_error (i : nat) (messages : JSValue) (e : Error) :
  loop_test i messages = Throw e -> e = TypeError.
Proof.
  destruct messages as [| | | | |props]; cbn; try congruence.
  destruct (JS.assoc "length" props) as [v|]; [|congruence].
  destruct v; cbn; try congruence; destruct (ObjectToPrimitive _); congruence.
Qed.

Lemma normalize_error (parsed : JSValue) (e : Error) :
  normalize parsed = Throw e -> e = TypeError.
Proof.
  unfold normalize. destruct (JS.get parsed "messages") as [[m|]|e'] eqn:Eg.
  - destruct (JS.truthy m); congruence.
  - congruence.
  - intros [= <-]. by eapply get_error.
Qed.

Lemma ran_lift {A : Type} (r r' : Result A) (st st' : State) :
  (forall e, r = Throw e -> e = TypeError) ->
  lift r st = (st', r') -> ran [] st st' r'.
Proof.
  intros He [= <- <-]. destruct r as [a | e].
  - by apply ran_pure.
  - apply ran_TypeError. intros c. by rewrite (He e eq_refl).
Qed.

Lemma ran_execCommand (command : string) (st st' : State) (r : Result string) :
  execCommand command st = (st', r) -> ran [ExecCommand command] st st' r.
Proof. apply ran_call. Qed.

Lemma ran_lipSyncMessage (i : nat) (st st' : State) (r : Result unit) :
  lipSyncMessage i st = (st', r) ->
  ran [ExecCommand (ffmpeg_command i); ExecCommand (rhubarb_command i)] st st' r.
Proof.
  unfold lipSyncMessage.
  apply (ran_bind _ _ [_] [_]); [intros *; apply ran_execCommand |].
  intros _ st1 _.
  apply (ran_bind _ _ [_] []); [intros *; apply ran_execCommand |].
  intros _ st2 _ [= <- <-]. by apply ran_pure.
Qed.

Lemma ran_enrichTurn (i : nat) (messages : JSValue) (st st' : State)
    (r : Result JSValue) :
  enrichTurn i messages st = (st', r) ->
  ran (turn_calls i (turn_text messages i)) st st' r.
Proof.
  unfold enrichTurn, turn_text. rewrite bind_run. cbn [lift].
  destruct (JS.get_index messages i) as [message | e] eqn:Ei.
  2:{ intros [= <- <-]. apply ran_TypeError. intros c.
      by rewrite (get_index_error _ _ _ Ei). }
  rewrite bind_run. cbn [lift].
  destruct (JS.get_member message "text") as [text | e] eqn:Et.
  2:{ intros [= <- <-]. apply ran_TypeError. intros c.
      by rewrite (get_member_error _ _ _ Et). }
  assert (match message with Some turn => text_of turn | None => None end = text)
    as ->.
  { destruct message as [turn|]; [|discriminate]. unfold text_of.
    cbn in Et. by rewrite Et. }
  unfold turn_calls.
  apply (ran_bind _ _ [_] [_; _; _; _]); [intros *; apply ran_call |].
  intros _ st1 _.
  apply (ran_bind _ _ [_; _] [_; _]); [intros *; apply ran_lipSyncMessage |].
  intros _ st2 _.
  apply (ran_bind _ _ [_] [_]); [intros *; apply ran_call |].
  intros audio st3 _.
  apply (ran_bind _ _ [] [_]);
    [intros *; apply ran_lift; intros e; apply set_member_error |].
  intros m1 st4 _.
  apply (ran_bind _ _ [_] []); [intros *; apply ran_call |].
  intros lipsync st5 _.
  apply (ran_bind _ _ [] []);
    [intros *; apply ran_lift; intros e; apply set_error |].
  intros m2 st6 _ [= <- <-]. by apply ran_pure.
Qed.

Lemma enrichTurn_returned (i : nat) (messages messages' : JSValue) (st st' : State) :
  enrichTurn i messages st = (st', Ok messages') ->
  exists turn turn',
    JS.get_index messages i = Ok (Some turn) /\ enriched turn turn' /\
    messages' = JS.store_index messages i turn'.
Proof.
  unfold enrichTurn. intros Hrun.
  returned Hrun as st1 message Ei. injection Ei as <- Ei.
  returned Hrun as st2 text Et. injection Et as <- Et.
  destruct message as [turn|]; [|discriminate Et].
  returned Hrun as st3 spoken Es.
  returned Hrun as st4 synced El.
  returned Hrun as st5 audio Ea.
  returned Hrun as st6 with_audio Ew. injection Ew as <- Ew.
  returned Hrun as st7 lipsync Ej.
  returned Hrun as st8 turn' Ef. injection Ef as <- Ef.
  injection Hrun as <- <-.
  exists turn, turn'. split; [done |]. split; [|done].
  by exists audio, lipsync, with_audio.
Qed.

Lemma ran_enrich (fuel i : nat) (messages : JSValue) (st st' : State)
    (r : Result JSValue) :
  enrich fuel i messages st = (st', r) ->
  exists texts, ran (schedule i texts) st st' r.
Proof.
  revert i messages st. induction fuel as [|fuel IH]; intros i messages st; cbn [enrich].
  { intros [= <- <-]. exists []. by apply ran_TypeError. }
  rewrite bind_run. cbn [lift].
  destruct (loop_test i messages) as [[|] | e] eqn:Etest.
  - rewrite bind_run.
    destruct (enrichTurn i messages st) as [st1 [messages1 | e]] eqn:Eturn.
    + intros (texts & Hrest)%IH. exists (turn_text messages i :: texts). cbn [schedule].
      eapply ran_seq; [by apply ran_enrichTurn in Eturn | done].
    + intros [= <- <-]. exists [turn_text messages i]. cbn [schedule].
      apply (ran_longer (A := JSValue)). by apply ran_enrichTurn.
  - intros [= <- <-]. exists []. by apply ran_pure.
  - intros [= <- <-]. exists []. apply ran_TypeError. intros c.
    by rewrite (loop_test_error _ _ _ Etest).
Qed.

End Backend_facts.

(** ** An array of turns *)

Section Arrays.

Context `{Collaborators}.

(** The loop over an array, entered at the index where [rest] starts:
    every remaining turn is enriched in place, none is added or dropped,
    and the passes are logged in order. *)
Lemma enrich_array (fuel : nat) :
  forall (done rest : list JSValue) (st st' : State) (r : JSValue),
    enrich fuel (length done) (JArr (done ++ rest)) st = (st', Ok r) ->
    exists rest',
      r = JArr (done ++ rest') /\ Forall2 enriched rest rest' /\
      log st' = log st ++ completed (schedule (length done) (map text_of rest)).
Proof.
  induction fuel as [|fuel IH]; intros done rest st st' r; cbn [enrich].
  { intros [= _ ?]. }
  intros Hrun. returned Hrun as st0 more Etest. injection Etest as <- Etest.
  destruct rest as [|turn rest].
  - rewrite app_nil_r, Nat.ltb_irrefl in Etest. subst more.
    injection Hrun as <- <-. exists []. rewrite app_nil_r.
    by repeat split; [constructor | rewrite app_nil_r].
  - assert (more = true) as ->.
    { rewrite <- Etest. apply Nat.ltb_lt. rewrite length_app. cbn. lia. }
    returned Hrun as st1 messages1 Eturn.
    pose proof (ran_enrichTurn _ _ _ _ _ Eturn) as (evs & Hlog1 & ->).
    apply enrichTurn_returned in Eturn as (turn0 & turn' & Hget & Henr & ->).
    cbn in Hget. rewrite list_lookup_middle in Hget by done.
    injection Hget as <-.
    unfold turn_text in Hlog1. cbn [JS.get_index] in Hlog1.
    rewrite list_lookup_middle in Hlog1 by done.
    cbn [JS.store_index] in Hrun.
    replace (<[length done := turn']> (done ++ turn :: rest))
      with ((done ++ [turn']) ++ rest) in Hrun.
    2:{ rewrite <- (Nat.add_0_r (length done)) at 1.
        rewrite insert_app_r. cbn. by rewrite <- app_assoc. }
    replace (S (length done)) with (length (done ++ [turn'])) in Hrun
      by (rewrite length_app; cbn; lia).
    apply IH in Hrun as (rest' & -> & Hrest & Hlog).
    exists (turn' :: rest'). split; [by rewrite <- app_assoc |].
    split; [by constructor |].
    rewrite Hlog, Hlog1, length_app. cbn [map schedule length].
    rewrite completed_app, <- app_assoc. do 4 f_equal. lia.
Qed.

(** The same from the first index. *)
Lemma enrich_turns (fuel : nat) (turns : list JSValue) (st st' : State) (r : JSValue) :
  enrich fuel 0 (JArr turns) st = (st', Ok r) ->
  exists turns',
    r = JArr turns' /\ Forall2 enriched turns turns' /\
    log st' = log st ++ completed (schedule 0 (map text_of turns)).
Proof. apply (enrich_array fuel []). Qed.

(** Writing [audio] and [lipsync] leaves every other property as it was. *)
Lemma assoc_assign_other (k k' : string) (v : JSValue) (props : list (string * JSValue)) :
  k' <> k -> JS.assoc k' (JS.assign k v props) = JS.assoc k' props.
Proof.
  intros Hk. induction props as [|[k0 v0] props IH]; cbn.
  - destruct (String.eqb_spec k' k); [done | done].
  - destruct (String.eqb_spec k k0) as [-> | Hk0]; cbn.
    + destruct (String.eqb_spec k' k0); [done | done].
    + destruct (String.eqb_spec k' k0); [done | apply IH].
Qed.

Lemma set_other (turn turn' x : JSValue) (k k' : string) :
  JS.set turn k x = Ok turn' -> k' <> k -> JS.get turn' k' = JS.get turn k'.
Proof.
  destruct turn; cbn; try discriminate; intros [= <-] Hk; cbn; [done |].
  by rewrite assoc_assign_other.
Qed.

Lemma enriched_other (turn turn' : JSValue) (k : string) :
  enriched turn turn' -> k <> "audio" -> k <> "lipsync" ->
  JS.get turn' k = JS.get turn k.
Proof.
  intros (audio & lipsync & with_audio & Ha & Hl) Hka Hkl.
  rewrite (set_other _ _ _ _ _ Hl Hkl). by apply (set_other _ _ _ _ _ Ha).
Qed.

(** The normalizer on the two list shapes. *)
Lemma normalize_list (parsed : JSValue) (turns : list JSValue) :
  list_shaped parsed turns -> normalize parsed = Ok (JArr turns).
Proof.
  intros [-> | (props & -> & Hm)]; unfold normalize; cbn; [done |].
  by rewrite Hm.
Qed.

(** What [serve] returns is what the loop returned, under [messages]. *)
Lemma serve_returned (parsed body : JSValue) (st st' : State) :
  serve parsed st = (st', Ok body) ->
  exists batch messages,
    normalize parsed = Ok batch /\
    enrich (S (passes batch)) 0 batch st = (st', Ok messages) /\
    body = respond messages.
Proof.
  unfold serve. intros Hrun.
  returned Hrun as st0 batch En. injection En as <- En.
  returned Hrun as st1 messages Ee. injection Hrun as <- <-.
  by exists batch, messages.
Qed.

Lemma serve_list (parsed body : JSValue) (turns : list JSValue) (st st' : State) :
  list_shaped parsed turns ->
  serve parsed st = (st', Ok body) ->
  exists turns',
    body = respond (JArr turns') /\ Forall2 enriched turns turns' /\
    log st' = log st ++ completed (schedule 0 (map text_of turns)).
Proof.
  intros Hshape%normalize_list (batch & messages & Hn & He & ->)%serve_returned.
  rewrite Hshape in Hn. injection Hn as <-.
  apply enrich_turns in He as (turns' & -> & Henr & Hlog). by exists turns'.
Qed.

End Arrays.

(** ** The loop never runs out of fuel *)

Section Fuel.

Context `{Collaborators}.

Lemma bind_thrown {A B : Type} (m : M A) (k : A -> M B) (st st' : State) (e : Error) :
  (forall st1 e1, m st = (st1, Throw e1) -> e1 <> OutOfFuel) ->
  (forall a st1, m st = (st1, Ok a) -> k a st1 = (st', Throw e) -> e <> OutOfFuel) ->
  (m ≫= k) st = (st', Throw e) -> e <> OutOfFuel.
Proof.
  intros Hm Hk. rewrite bind_run. destruct (m st) as [st1 [a | e1]] eqn:Em.
  - by apply Hk.
  - intros [= <- <-]. by eapply Hm.
Qed.

Lemma call_thrown {A : Type} (c : Call) (run : World -> World * option A)
    (st st' : State) (e : Error) :
  call c run st = (st', Throw e) -> e <> OutOfFuel.
Proof.
  intros [(a & ? & _) | (Hr & _)]%call_run; [discriminate | congruence].
Qed.

Lemma lift_thrown {A : Type} (r : Result A) (st st' : State) (e : Error) :
  (forall e', r = Throw e' -> e' = TypeError) ->
  lift r st = (st', Throw e) -> e <> OutOfFuel.
Proof. intros He [= <- ->]. by rewrite (He e eq_refl). Qed.

Lemma enrichTurn_thrown (i : nat) (messages : JSValue) (st st' : State) (e : Error) :
  enrichTurn i messages st = (st', Throw e) -> e <> OutOfFuel.
Proof.
  unfold enrichTurn, lipSyncMessage, execCommand, audioFileToBase64, readJsonTranscript.
  repeat first
    [ apply bind_thrown; [intros ? ? | intros ? ? _]
    | apply call_thrown
    | apply lift_thrown; intros e'; solve
        [ apply get_index_error | apply get_member_error
        | apply set_member_error | apply set_error ]
    | discriminate ].
Qed.

Lemma assoc_keys (k : string) (props : list (string * JSValue)) :
  JS.assoc k props <> None -> k ∈ props.*1.
Proof.
  induction props as [|[k0 v0] props IH]; cbn; [done |].
  destruct (String.eqb_spec k k0) as [-> | Hk]; intros Hsome.
  - apply list_elem_of_here.
  - by apply list_elem_of_further, IH.
Qed.

Lemma assoc_assign_same (k : string) (v : JSValue) (props : list (string * JSValue)) :
  JS.assoc k (JS.assign k v props) = Some v.
Proof.
  induction props as [|[k0 v0] props IH]; cbn.
  - by rewrite String.eqb_refl.
  - destruct (String.eqb_spec k k0) as [-> | Hk]; cbn.
    + by rewrite String.eqb_refl.
    + by destruct (String.eqb_spec k k0).
Qed.

Lemma length_assign (k : string) (v : JSValue) (props : list (string * JSValue)) :
  JS.assoc k props <> None -> length (JS.assign k v props) = length props.
Proof.
  induction props as [|[k0 v0] props IH]; cbn; [done |].
  destruct (String.eqb_spec k k0) as [-> | Hk]; cbn; [done |].
  intros Hsome. by rewrite IH.
Qed.

(** The indices the loop has got through are distinct properties of an
    object, so they are no more than its properties. *)
Lemma visited_bound (i : nat) (messages : JSValue) :
  visited i messages -> i <= passes messages.
Proof.
  destruct messages as [| | | | |props]; cbn; try lia. intros Hkeys.
  assert (pretty <$> seq 0 i ⊆+ props.*1) as Hsub.
  { apply NoDup_submseteq.
    - apply (NoDup_fmap_2 _), NoDup_seq.
    - intros k (j & -> & Hj%elem_of_seq)%list_elem_of_fmap.
      apply assoc_keys, Hkeys. lia. }
  apply submseteq_length in Hsub.
  by rewrite !length_fmap, length_seq in Hsub.
Qed.

Lemma visited_next (i : nat) (messages turn turn' : JSValue) :
  visited i messages ->
  loop_test i messages = Ok true ->
  JS.get_index messages i = Ok (Some turn) ->
  visited (S i) (JS.store_index messages i turn') /\
  passes (JS.store_index messages i turn') = passes messages.
Proof.
  destruct messages as [| | |s|elems|props]; cbn; try discriminate.
  - intros _ [= Hlt%Nat.ltb_lt] _. split; [lia | done].
  - intros _ [= Hlt%Nat.ltb_lt] _. rewrite length_insert. split; [lia | done].
  - intros Hkeys _ [= Hturn]. split.
    + intros j Hj. destruct (decide (j = i)) as [-> | Hne].
      * by rewrite assoc_assign_same.
      * rewrite assoc_assign_other; [apply Hkeys; lia |].
        intros Heq. by apply (inj pretty) in Heq.
    + apply length_assign. by rewrite Hturn.
Qed.

Lemma enrich_thrown (fuel : nat) :
  forall (i : nat) (messages : JSValue) (st st' : State) (e : Error),
    visited i messages ->
    passes messages < fuel + i ->
    enrich fuel i messages st = (st', Throw e) ->
    e <> OutOfFuel.
Proof.
  induction fuel as [|fuel IH]; intros i messages st st' e Hvis Hfuel; cbn [enrich].
  { apply visited_bound in Hvis. lia. }
  rewrite bind_run. cbn [lift].
  destruct (loop_test i messages) as [[|] | e0] eqn:Etest.
  - rewrite bind_run.
    destruct (enrichTurn i messages st) as [st1 [messages1 | e1]] eqn:Eturn.
    + apply enrichTurn_returned in Eturn as (turn & turn' & Hget & _ & ->).
      destruct (visited_next i messages turn turn' Hvis Etest Hget) as [Hvis' Hpasses].
      apply IH; [done | lia].
    + intros [= <- <-]. by eapply enrichTurn_thrown.
  - discriminate.
  - intros [= <- <-]. by rewrite (loop_test_error _ _ _ Etest).
Qed.

(** [OutOfFuel] is no outcome of the handler: the model follows the loop
    to its end on every input. *)
Lemma serve_thrown (parsed : JSValue) (st st' : State) (e : Error) :
  serve parsed st = (st', Throw e) -> e <> OutOfFuel.
Proof.
  unfold serve. apply bind_thrown.
  - intros st1 e1. apply lift_thrown, normalize_error.
  - intros batch st1 _. apply bind_thrown; [|discriminate].
    intros st2 e2. apply enrich_thrown; [|lia].
    destruct batch; cbn; try done; lia.
Qed.

Lemma chat_thrown (body : JSValue) (st st' : State) (e : Error) :
  chat body st = (st', Throw e) -> e <> OutOfFuel.
Proof.
  unfold chat. apply bind_thrown.
  - intros st1 e1. apply lift_thrown. intros e'. apply get_error.
  - intros userMessage st1 _. apply bind_thrown; [intros ? ?; apply call_thrown |].
    intros content st2 _. apply bind_thrown.
    + intros st3 e3. destruct (JSON_parse content); by intros [= _ <-].
    + intros parsed st3 _. apply serve_thrown.
Qed.

End Fuel.

(** ** The whole handler *)

Section Handler_facts.

Context `{Collaborators}.

Lemma ran_serve (parsed : JSValue) (st st' : State) (r : Result JSValue) :
  serve parsed st = (st', r) -> exists texts, ran (schedule 0 texts) st st' r.
Proof.
  unfold serve. rewrite bind_run. cbn [lift].
  destruct (normalize parsed) as [batch | e] eqn:En.
  2:{ intros [= <- <-]. exists []. apply ran_TypeError. intros c.
      by rewrite (normalize_error _ _ En). }
  rewrite bind_run.
  destruct (enrich (S (passes batch)) 0 batch st) as [st1 [messages | e]] eqn:Ee;
    intros [= <- <-]; apply ran_enrich in Ee as (texts & Hran); by exists texts.
Qed.


End Handler_facts.

(** ** The log against the collaborators *)

Section Replay_facts.

Context `{Collaborators}.

Lemma replays_app (w w1 w2 : World) (evs evs' : list Event) :
  replays w evs w1 -> replays w1 evs' w2 -> replays w (evs ++ evs') w2.
Proof.
  induction 1 as [w | c w w1 evs Hc _ IH | c w w1 evs Hc _ IH]; intros Hrest; cbn.
  - done.
  - apply replays_finished; [done | by apply IH].
  - apply replays_failed; [done | by apply IH].
Qed.

Lemma replays_completed (cs : list Call) (w w' : World) :
  replays w (completed cs) w' -> run_calls cs w = (w', None).
Proof.
  revert w. induction cs as [|c cs IH]; intros w Hr; cbn in *.
  - by inversion Hr.
  - inversion Hr as [| c0 w0 w0' evs Hc Hrest |]; subst.
    destruct (invoke c w) as [w1 settled]. cbn in Hc, Hrest. subst settled.
    by apply IH.
Qed.

Lemma run_calls_app (cs cs' : list Call) (w : World) :
  run_calls (cs ++ cs') w =
    match run_calls cs w with
    | (w1, None) => run_calls cs' w1
    | (w1, Some c) => (w1, Some c)
    end.
Proof.
  revert w. induction cs as [|c cs IH]; intros w; cbn; [done |].
  destruct (invoke c w) as [w1 [|]]; [apply IH | done].
Qed.

Lemma schedule_app (i : nat) (texts texts' : list (option JSValue)) :
  schedule i (texts ++ texts') = schedule i texts ++ schedule (i + length texts) texts'.
Proof.
  revert i. induction texts as [|text texts IH]; intros i; cbn [schedule app length].
  - by rewrite Nat.add_0_r.
  - rewrite IH, <- app_assoc. do 3 f_equal. lia.
Qed.

Lemma faithful_lift {A : Type} (r : Result A) : faithful (lift r).
Proof.
  intros st st' r' [= <- <-]. exists []. split; [by rewrite app_nil_r | constructor].
Qed.

Lemma faithful_ret {A : Type} (a : A) : faithful (mret a).
Proof.
  intros st st' r' [= <- <-]. exists []. split; [by rewrite app_nil_r | constructor].
Qed.

Lemma faithful_bind {A B : Type} (m : M A) (k : A -> M B) :
  faithful m -> (forall a, faithful (k a)) -> faithful (m ≫= k).
Proof.
  intros Hm Hk st st' r. rewrite bind_run.
  destruct (m st) as [st1 [a | e]] eqn:Em; intros Hrun.
  - destruct (Hm _ _ _ Em) as (evs1 & Hlog1 & Hr1).
    destruct (Hk a _ _ _ Hrun) as (evs2 & Hlog2 & Hr2).
    exists (evs1 ++ evs2). split; [by rewrite Hlog2, Hlog1, app_assoc |].
    by eapply replays_app.
  - injection Hrun as <- <-. by eapply Hm.
Qed.

(** An awaited call is faithful when what it runs is what its name says. *)
Lemma faithful_call {A : Type} (c : Call) (run : World -> World * option A) :
  (forall w, invoke c w = (fst (run w), resolved (snd (run w)))) ->
  faithful (call c run).
Proof.
  intros Hc st st' r. unfold call. specialize (Hc (world st)).
  destruct (run (world st)) as [w [a|]]; intros [= <- <-]; cbn in *.
  - eexists. split; [done |]. apply replays_finished; rewrite Hc; [done | constructor].
  - eexists. split; [done |]. apply replays_failed; rewrite Hc; [done | constructor].
Qed.

Lemma faithful_execCommand (command : string) : faithful (execCommand command).
Proof.
  apply faithful_call. intros w. cbn. by destruct (exec command w).
Qed.

Lemma faithful_lipSyncMessage (i : nat) : faithful (lipSyncMessage i).
Proof.
  unfold lipSyncMessage.
  apply faithful_bind; [apply faithful_execCommand | intros _].
  apply faithful_bind; [apply faithful_execCommand | intros _].
  apply faithful_ret.
Qed.

Lemma faithful_audioFileToBase64 (file : string) : faithful (audioFileToBase64 file).
Proof.
  apply faithful_call. intros w. cbn. by destruct (readFile file w) as [w' [data|]].
Qed.

Lemma faithful_readJsonTranscript (file : string) : faithful (readJsonTranscript file).
Proof.
  apply faithful_call. intros w. cbn. by destruct (readFileUtf8 file w) as [w' [data|]].
Qed.

Lemma faithful_enrichTurn (i : nat) (messages : JSValue) :
  faithful (enrichTurn i messages).
Proof.
  unfold enrichTurn.
  apply faithful_bind; [apply faithful_lift | intros message].
  apply faithful_bind; [apply faithful_lift | intros textInput].
  apply faithful_bind.
  { apply faithful_call. intros w. cbn.
    by destruct (textToSpeech (mp3_file i) textInput w) as [w' [[]|]]. }
  intros _.
  apply faithful_bind; [apply faithful_lipSyncMessage | intros _].
  apply faithful_bind; [apply faithful_audioFileToBase64 | intros audio].
  apply faithful_bind; [apply faithful_lift | intros with_audio].
  apply faithful_bind; [apply faithful_readJsonTranscript | intros lipsync].
  apply faithful_bind; [apply faithful_lift | intros message'].
  apply faithful_ret.
Qed.

Lemma faithful_enrich (fuel i : nat) (messages : JSValue) :
  faithful (enrich fuel i messages).
Proof.
  revert i messages. induction fuel as [|fuel IH]; intros i messages; cbn [enrich].
  { apply faithful_lift. }
  apply faithful_bind; [apply faithful_lift | intros [|]].
  - apply faithful_bind; [apply faithful_enrichTurn | intros messages1; apply IH].
  - apply faithful_ret.
Qed.

Lemma faithful_serve (parsed : JSValue) : faithful (serve parsed).
Proof.
  unfold serve.
  apply faithful_bind; [apply faithful_lift | intros batch].
  apply faithful_bind; [apply faithful_enrich | intros messages].
  apply faithful_ret.
Qed.

Lemma faithful_chat (body : JSValue) : faithful (chat body).
Proof.
  unfold chat.
  apply faithful_bind; [apply faithful_lift | intros userMessage].
  apply faithful_bind.
  { apply faithful_call. intros w. cbn.
    by destruct (createCompletion (userContent userMessage) w) as [w' [content|]]. }
  intros content.
  apply faithful_bind; [apply faithful_lift | intros parsed].
  apply faithful_serve.
Qed.

(** The loop over a list of turns that returned made every call of the
    schedule on its collaborator, and each resolved. *)
Lemma enrich_turns_run_calls (fuel : nat) (turns : list JSValue) (st st' : State)
    (r : JSValue) :
  enrich fuel 0 (JArr turns) st = (st', Ok r) ->
  run_calls (schedule 0 (map text_of turns)) (world st) = (world st', None).
Proof.
  intros Hrun. apply replays_completed.
  destruct (faithful_enrich _ _ _ _ _ _ Hrun) as (evs & Hlog & Hreplays).
  apply enrich_turns in Hrun as (turns' & _ & _ & Hlog').
  rewrite Hlog' in Hlog. by apply app_inv_head in Hlog as <-.
Qed.

(** A stage of turn [N] that fails, after the stages of the turns before it
    succeeded, is where the schedule of the whole batch stops. *)
Lemma run_calls_stops (texts : list (option JSValue)) (N : nat)
    (text : option JSValue) (w wN w' : World) (c : Call) :
  texts !! N = Some text ->
  run_calls (schedule 0 (take N texts)) w = (wN, None) ->
  run_calls (turn_calls N text) wN = (w', Some c) ->
  run_calls (schedule 0 texts) w = (w', Some c).
Proof.
  intros Hlook Hbefore Hfail.
  rewrite <- (take_drop_middle texts N text Hlook), schedule_app, run_calls_app.
  rewrite Hbefore. cbn [schedule]. rewrite run_calls_app.
  rewrite length_take_le by (apply lookup_lt_Some in Hlook; lia).
  cbn [Nat.add]. by rewrite Hfail.
Qed.

End Replay_facts.

(** * The claims *)

(** ** C1: no cap on the number of turns *)

(** C1, as stated, fails: a bare list of five turn objects, with every
    collaborator succeeding, is answered with all five turns. *)
Lemma five_turns_are_all_returned :
  list_shaped (JArr Mock.five) Mock.five /\ 3 < length Mock.five /\
  exists turns',
    @serve Mock.healthy (JArr Mock.five) Mock.start_healthy
      = (Mock.state_of Mock.five_run, Ok (respond (JArr turns'))) /\
    length turns' = 5.
Proof.
  split; [by left |]. split; [cbn; lia |].
  eexists. split; [vm_compute; reflexivity | reflexivity].
Qed.

(** C1, amended: the normalizer and the loop apply no cap.  A list of [n]
    turn objects, bare or wrapped, is normalized to a batch of [n] turns,
    and every response sent for it carries exactly [n] turns. *)
Theorem response_has_every_turn `{Collaborators} (parsed body : JSValue)
    (turns : list JSValue) (st st' : State) :
  list_shaped parsed turns ->
  serve parsed st = (st', Ok body) ->
  normalize parsed = Ok (JArr turns) /\
  exists turns', body = respond (JArr turns') /\ length turns' = length turns.
Proof.
  intros Hshape Hrun. split; [by apply normalize_list |].
  destruct (serve_list _ _ _ _ _ Hshape Hrun) as (turns' & -> & Henr & _).
  exists turns'. split; [done |]. symmetry. by eapply Forall2_length.
Qed.

Lemma response_has_every_turn_witness :
  normalize (JArr Mock.five) = Ok (JArr Mock.five) /\
  exists turns',
    Mock.body_of Mock.five_run = respond (JArr turns') /\
    length turns' = length Mock.five.
Proof.
  apply (@response_has_every_turn Mock.healthy (JArr Mock.five)
           (Mock.body_of Mock.five_run) Mock.five Mock.start_healthy
           (Mock.state_of Mock.five_run)).
  - left. reflexivity.
  - vm_compute. reflexivity.
Defined.

(** ** C2: no validation of expressions and animations *)

(** C2, as stated, fails: an expression and an animation outside the
    enumerations are forwarded to the caller, and a turn that has neither
    is answered without them, not with [default] and [Idle]. *)
Lemma unlisted_values_are_forwarded :
  exists first second,
    @serve Mock.healthy (JArr Mock.odd) Mock.start_healthy
      = (Mock.state_of Mock.odd_run, Ok (respond (JArr [first; second]))) /\
    JS.get first "facialExpression" = Ok (Some (JStr "wink")) /\
    ~ In "wink" facialExpressions /\
    JS.get first "animation" = Ok (Some (JStr "Moonwalk")) /\
    ~ In "Moonwalk" animations /\
    JS.get second "facialExpression" = Ok None /\
    JS.get second "animation" = Ok None.
Proof.
  do 2 eexists. split; [vm_compute; reflexivity |].
  repeat split; try reflexivity; cbn; intuition discriminate.
Qed.

(** C2, amended: the pipeline neither validates nor defaults.  In every
    response sent for a list of turns, each turn carries the
    [facialExpression] and the [animation] of the model's turn at the same
    position, as they were, present or not. *)
Theorem expression_and_animation_pass_through `{Collaborators}
    (parsed body : JSValue) (turns : list JSValue) (st st' : State) :
  list_shaped parsed turns ->
  serve parsed st = (st', Ok body) ->
  exists turns',
    body = respond (JArr turns') /\
    forall i turn, turns !! i = Some turn ->
      exists turn',
        turns' !! i = Some turn' /\
        JS.get turn' "facialExpression" = JS.get turn "facialExpression" /\
        JS.get turn' "animation" = JS.get turn "animation".
Proof.
  intros Hshape Hrun.
  destruct (serve_list _ _ _ _ _ Hshape Hrun) as (turns' & -> & Henr & _).
  exists turns'. split; [done |]. intros i turn Hi.
  destruct (Forall2_lookup_l _ _ _ _ _ Henr Hi) as (turn' & Hi' & Hturn).
  exists turn'. split; [done |]. split; by apply enriched_other.
Qed.

Lemma expression_and_animation_pass_through_witness :
  exists turns',
    Mock.body_of Mock.odd_run = respond (JArr turns') /\
    forall i turn, Mock.odd !! i = Some turn ->
      exists turn',
        turns' !! i = Some turn' /\
        JS.get turn' "facialExpression" = JS.get turn "facialExpression" /\
        JS.get turn' "animation" = JS.get turn "animation".
Proof.
  apply (@expression_and_animation_pass_through Mock.healthy (JArr Mock.odd)
           (Mock.body_of Mock.odd_run) Mock.odd Mock.start_healthy
           (Mock.state_of Mock.odd_run)).
  - left. reflexivity.
  - vm_compute. reflexivity.
Defined.

(** ** C3: a failing stage fails the request *)

(** C3: take a request whose model output holds a list of turns, and a
    turn [N] of it.  If, with the stages of the turns before [N] all
    succeeding on the collaborators, a stage of turn [N] fails there (the
    synthesis, the transcoding, the viseme extraction or a read-back:
    [run_calls] makes them on the collaborators, not through the handler),
    then the handler ends by throwing: [res.send] is not reached, so no
    turn of the batch is sent, with or without audio and lipsync, and
    nothing stands in for what could not be read. *)
Theorem failing_stage_fails_the_request `{Collaborators} (body : JSValue)
    (userMessage : option JSValue) (content : string) (parsed : JSValue)
    (turns : list JSValue) (N : nat) (text : option JSValue) (c : Call)
    (w w0 wN w' : World) (st' : State) (r : Result JSValue) :
  JS.get body "message" = Ok userMessage ->
  createCompletion (userContent userMessage) w = (w0, Some content) ->
  JSON_parse content = Some parsed ->
  list_shaped parsed turns ->
  map text_of turns !! N = Some text ->
  run_calls (schedule 0 (take N (map text_of turns))) w0 = (wN, None) ->
  run_calls (turn_calls N text) wN = (w', Some c) ->
  chat body (start w) = (st', r) ->
  exists e, r = Throw e.
Proof.
  intros Hget Hcompletion Hparse Hshape Htext Hbefore Hfail.
  pose proof (run_calls_stops _ _ _ _ _ _ _ Htext Hbefore Hfail) as Hstop.
  unfold chat. rewrite bind_run. cbn [lift]. rewrite Hget, bind_run.
  unfold call at 1. cbn [start world log app]. rewrite Hcompletion.
  rewrite bind_run. cbn [lift]. rewrite Hparse. intros Hrun.
  destruct r as [response | e]; [| by exists e].
  apply serve_returned in Hrun as (batch & messages & Hn & He & _).
  rewrite (normalize_list _ _ Hshape) in Hn. injection Hn as <-.
  apply enrich_turns_run_calls in He. cbn [world] in He. congruence.
Qed.

Lemma failing_stage_fails_the_request_witness :
  @run_calls Mock.broken (turn_calls 1 (Some (JStr "two"))) 6 =
    (9, Some (ExecCommand (rhubarb_command 1))) /\
  exists e, snd Mock.broken_run = Throw e.
Proof.
  split; [vm_compute; reflexivity |].
  apply (@failing_stage_fails_the_request Mock.broken
           (JObj [("message", JStr "hello")]) (Some (JStr "hello")) Mock.reply
           (JArr Mock.three) Mock.three 1 (Some (JStr "two"))
           (ExecCommand (rhubarb_command 1)) 0 1 6 9 (fst Mock.broken_run)
           (snd Mock.broken_run)).
  - reflexivity.
  - reflexivity.
  - reflexivity.
  - by left.
  - reflexivity.
  - vm_compute. reflexivity.
  - vm_compute. reflexivity.
  - vm_compute. reflexivity.
Defined.

(** ** C4: one call at a time, turn after turn *)

(** C4: the calls of a batch are made one at a time, each awaited to its
    end before the next starts, in the order synthesis, transcoding, viseme
    extraction, audio read-back, transcript read-back for turn 0, then the
    same five for turn 1, and so on: what the run adds to the log is the
    log of that schedule, up to the call that failed when one did.  For a
    list of turns that is answered, every turn has its five calls, once
    each, with its own text.  Read as a timeline: the transcoding of turn
    [k] starts after its synthesis has finished, its viseme extraction
    after its transcoding has finished, and the synthesis of turn [k+1]
    after the viseme extraction of turn [k] has finished.  (A call has
    finished when its promise has settled.)  The log is what happened to
    the world: every call it names was made on its collaborator, exactly
    once, in the world the call before it left, it settled as the log
    says, and nothing else touched the world, so that the world after the
    request is the world after the calls of the schedule, made in that
    order. *)
Theorem enrichment_is_sequential `{Collaborators} (parsed : JSValue) (st st' : State)
    (r : Result JSValue) :
  serve parsed st = (st', r) ->
  exists texts evs,
    log st' = log st ++ evs /\
    replays (world st) evs (world st') /\
    match r with
    | Ok _ => evs = completed (schedule 0 texts)
    | Throw e => aborted_at (schedule 0 texts) evs e
    end /\
    (forall turns body,
       list_shaped parsed turns -> r = Ok body -> texts = map text_of turns) /\
    forall k,
      (forall p, evs !! p = Some (Started (ExecCommand (ffmpeg_command k))) ->
         exists q text, q < p /\
           evs !! q = Some (Finished (TextToSpeech (mp3_file k) text))) /\
      precedes evs (Finished (ExecCommand (ffmpeg_command k)))
        (Started (ExecCommand (rhubarb_command k))) /\
      (forall text,
         precedes evs (Finished (ExecCommand (rhubarb_command k)))
           (Started (TextToSpeech (mp3_file (S k)) text))).
Proof.
  intros Hrun.
  assert (exists texts,
            ran (schedule 0 texts) st st' r /\
            forall turns body,
              list_shaped parsed turns -> r = Ok body -> texts = map text_of turns)
    as (texts & (evs & Hlog & Hevs) & Htexts).
  { destruct (ran_serve _ _ _ _ Hrun) as (texts & Hran).
    destruct r as [body | e].
    2:{ exists texts. split; [done | discriminate]. }
    destruct (serve_returned _ _ _ _ Hrun) as (batch & messages & Hn & He & _).
    assert ((exists turns, batch = JArr turns) \/ forall turns, batch <> JArr turns)
      as [[turns ->] | Hother] by (destruct batch; eauto; right; discriminate).
    - apply enrich_turns in He as (turns' & _ & _ & Hlog).
      exists (map text_of turns). split; [by eexists |].
      intros turns0 _ Hshape%normalize_list _. congruence.
    - exists texts. split; [done |].
      intros turns _ Hshape%normalize_list _. rewrite Hshape in Hn.
      injection Hn as <-. by destruct (Hother turns). }
  assert (replays (world st) evs (world st')) as Hreplays.
  { destruct (faithful_serve _ _ _ _ Hrun) as (evs' & Hlog' & Hreplays).
    rewrite Hlog in Hlog'. by apply app_inv_head in Hlog' as <-. }
  exists texts, evs. repeat split; try done; intros;
    eapply (stages_in_order texts evs k); try eassumption;
    destruct r; eauto.
Qed.

Lemma enrichment_is_sequential_witness :
  exists texts evs,
    log (fst Mock.five_run) = log Mock.start_healthy ++ evs /\
    @replays Mock.healthy (world Mock.start_healthy) evs (world (fst Mock.five_run)) /\
    evs = completed (schedule 0 texts) /\
    texts = map text_of Mock.five /\
    precedes evs (Finished (ExecCommand (rhubarb_command 0)))
      (Started (TextToSpeech (mp3_file 1) (Some (JStr "two")))).
Proof.
  destruct (@enrichment_is_sequential Mock.healthy (JArr Mock.five) Mock.start_healthy
              (fst Mock.five_run) (snd Mock.five_run))
    as (texts & evs & Hlog & Hreplays & Hevs & Htexts & Horder).
  { vm_compute. reflexivity. }
  exists texts, evs. split; [exact Hlog |]. split; [exact Hreplays |].
  split; [exact Hevs |].
  split; [apply (Htexts Mock.five (Mock.body_of Mock.five_run)); [by left | reflexivity] |].
  apply (Horder 0).
Defined.

(** ** C5: the normalizer keeps the list as it is *)

(** C5: for a bare list of turn objects, and for an object whose
    [messages] field holds that list, the normalizer yields a batch with
    the same turns in the same order, hence of the same length (the code
    enforces no cap, so nothing is cut). *)
Theorem normalizer_keeps_the_list (parsed : JSValue) (turns : list JSValue) :
  list_shaped parsed turns ->
  exists batch,
    normalize parsed = Ok (JArr batch) /\
    length batch = length turns /\
    forall i, batch !! i = turns !! i.
Proof.
  intros Hshape%normalize_list. by exists turns.
Qed.

Lemma normalizer_keeps_the_list_witness :
  exists batch,
    normalize (JObj [("messages", JArr Mock.three)]) = Ok (JArr batch) /\
    length batch = length Mock.three /\
    forall i, batch !! i = Mock.three !! i.
Proof.
  apply (normalizer_keeps_the_list (JObj [("messages", JArr Mock.three)]) Mock.three).
  right. exists [("messages", JArr Mock.three)]. split; reflexivity.
Defined.

(** ** C6: no check of the shape *)

(** C6, as stated, fails: an object that is neither a list nor a wrapper
    of one is not rejected; it is sent back as it came, under [messages]. *)
Lemma stray_object_is_forwarded :
  (forall turns, ~ list_shaped Mock.stray turns) /\
  @serve Mock.healthy Mock.stray Mock.start_healthy
    = (Mock.start_healthy, Ok (JObj [("messages", Mock.stray)])).
Proof.
  split; [| reflexivity].
  intros turns [Hbare | (props & [= <-] & Hm)]; discriminate.
Qed.

(** C6, amended: the code has no shape check and no [UnrecognizedShape]
    error.  Normalization returns for every parsed value but [null], on
    which the handler throws a TypeError.  When the normalized value has no
    [length] (a number, a boolean, an object without that property), no
    collaborator is called and the value is sent back unchanged under
    [messages]. *)
Theorem shapeless_output_is_forwarded `{Collaborators} (parsed batch : JSValue)
    (st : State) :
  normalize parsed = Ok batch ->
  lengthless batch = true ->
  serve parsed st = (st, Ok (respond batch)) /\
  serve JNull st = (st, Throw TypeError) /\
  forall v, v = JNull \/ exists normalized, normalize v = Ok normalized.
Proof.
  intros Hn Hl. split; [|split; [reflexivity |]].
  - unfold serve. rewrite bind_run. cbn [lift]. rewrite Hn.
    rewrite bind_run. cbn [enrich]. rewrite bind_run. cbn [lift].
    destruct batch as [| | | | |props]; try discriminate; cbn; try done.
    cbn in Hl. by destruct (JS.assoc "length" props).
  - intros v. unfold normalize.
    destruct v as [| | | | |props]; cbn; eauto.
    destruct (JS.assoc "messages" props) as [m|]; [destruct (JS.truthy m) |]; eauto.
Qed.

Lemma shapeless_output_is_forwarded_witness :
  @serve Mock.healthy Mock.stray Mock.start_healthy
    = (Mock.start_healthy, Ok (respond Mock.stray)) /\
  @serve Mock.healthy JNull Mock.start_healthy = (Mock.start_healthy, Throw TypeError) /\
  forall v, v = JNull \/ exists normalized, normalize v = Ok normalized.
Proof.
  apply (@shapeless_output_is_forwarded Mock.healthy Mock.stray Mock.stray
           Mock.start_healthy); reflexivity.
Defined.

(** ** C7: the response *)

(** C7, as stated, fails: the body of a response has no [turns] field; the
    turns are under [messages]. *)
Lemma response_has_no_turns_field :
  exists st' turns,
    @chat Mock.healthy (JObj [("message", JStr "hello")]) Mock.start_healthy
      = (st', Ok (JObj [("messages", JArr turns)])) /\
    length turns = 3 /\
    JS.get (JObj [("messages", JArr turns)]) "turns" = Ok None.
Proof.
  do 2 eexists. split; [vm_compute; reflexivity |]. split; reflexivity.
Qed.

(** C7, amended: the body handed to [res.send] is an object with the
    single field [messages], and that field holds the batch exactly as the
    enrichment loop left it: same turns, same order, nothing else done. *)
Theorem response_is_the_batch_under_messages `{Collaborators} (parsed body : JSValue)
    (st st' : State) :
  serve parsed st = (st', Ok body) ->
  exists batch messages,
    normalize parsed = Ok batch /\
    enrich (S (passes batch)) 0 batch st = (st', Ok messages) /\
    body = JObj [("messages", messages)] /\
    JS.get body "messages" = Ok (Some messages) /\
    JS.get body "turns" = Ok None.
Proof.
  intros (batch & messages & Hn & He & ->)%serve_returned.
  by exists batch, messages.
Qed.

Lemma response_is_the_batch_under_messages_witness :
  exists batch messages,
    normalize (JArr Mock.five) = Ok batch /\
    @enrich Mock.healthy (S (passes batch)) 0 batch Mock.start_healthy
      = (Mock.state_of Mock.five_run, Ok messages) /\
    Mock.body_of Mock.five_run = JObj [("messages", messages)] /\
    JS.get (Mock.body_of Mock.five_run) "messages" = Ok (Some messages) /\
    JS.get (Mock.body_of Mock.five_run) "turns" = Ok None.
Proof.
  apply (@response_is_the_batch_under_messages Mock.healthy (JArr Mock.five)
           (Mock.body_of Mock.five_run) Mock.start_healthy
           (Mock.state_of Mock.five_run)).
  vm_compute. reflexivity.
Defined.

(** ** C8: the audio survives the transport encoding *)

(** C8: when the audio file can be read, [audioFileToBase64] returns a
    string whose base64 decoding is the content of the file, byte for
    byte. *)
Theorem audio_round_trip `{Collaborators} (file : string) (st : State) (w : World)
    (data : list byte) :
  readFile file (world st) = (w, Some data) ->
  exists st' audio,
    audioFileToBase64 file st = (st', Ok audio) /\
    Base64.decode audio = Some data.
Proof.
  intros Hread. unfold audioFileToBase64, call. rewrite Hread. cbn.
  eexists _, _. split; [reflexivity | apply decode_encode].
Qed.

Lemma audio_round_trip_witness :
  exists st' audio,
    @audioFileToBase64 Mock.healthy (mp3_file 0) Mock.start_healthy = (st', Ok audio) /\
    Base64.decode audio = Some ["I"%byte; "D"%byte; "3"%byte].
Proof.
  apply (@audio_round_trip Mock.healthy (mp3_file 0) Mock.start_healthy 1
           ["I"%byte; "D"%byte; "3"%byte]).
  reflexivity.
Defined.

(** ** C9: the default user message *)



(** ** C10: what enrichment leaves alone *)

(** C10: the loop over a list of turns returns a list of the same length in
    which the turn at each position is the turn that was there, with
    [audio] and [lipsync] written and every other property ([text],
    [facialExpression], [animation], ...) as it was. *)
Theorem enrichment_only_adds_audio_and_lipsync `{Collaborators} (fuel : nat)
    (turns : list JSValue) (st st' : State) (r : JSValue) :
  enrich fuel 0 (JArr turns) st = (st', Ok r) ->
  exists turns',
    r = JArr turns' /\ length turns' = length turns /\
    forall i turn, turns !! i = Some turn ->
      exists turn',
        turns' !! i = Some turn' /\ enriched turn turn' /\
        forall k, k <> "audio" -> k <> "lipsync" -> JS.get turn' k = JS.get turn k.
Proof.
  intros (turns' & -> & Henr & _)%enrich_turns. exists turns'.
  split; [done |]. split; [symmetry; by eapply Forall2_length |].
  intros i turn Hi.
  destruct (Forall2_lookup_l _ _ _ _ _ Henr Hi) as (turn' & Hi' & Hturn).
  exists turn'. split; [done |]. split; [done |].
  intros k. by apply enriched_other.
Qed.

Lemma enrichment_only_adds_audio_and_lipsync_witness :
  exists turns',
    Mock.body_of (@enrich Mock.healthy 4 0 (JArr Mock.three) Mock.start_healthy)
      = JArr turns' /\
    length turns' = length Mock.three /\
    forall i turn, Mock.three !! i = Some turn ->
      exists turn',
        turns' !! i = Some turn' /\ enriched turn turn' /\
        forall k, k <> "audio" -> k <> "lipsync" -> JS.get turn' k = JS.get turn k.
Proof.
  apply (@enrichment_only_adds_audio_and_lipsync Mock.healthy 4 Mock.three
           Mock.start_healthy
           (fst (@enrich Mock.healthy 4 0 (JArr Mock.three) Mock.start_healthy))).
  vm_compute. reflexivity.
Defined.

(** * More of the [/chat] handler *)

Section Chat_more.

Context `{Collaborators}.

Lemma enrichTurn_populated (i : nat) (messages messages' : JSValue) (st st' : State) :
  enrichTurn i messages st = (st', Ok messages') ->
  exists turn turn',
    JS.get_index messages i = Ok (Some turn) /\ populated i turn turn' /\
    messages' = JS.store_index messages i turn'.
Proof.
  unfold enrichTurn. intros Hrun.
  returned Hrun as st1 message Ei. injection Ei as <- Ei.
  returned Hrun as st2 text Et. injection Et as <- Et.
  destruct message as [turn|]; [|discriminate Et].
  returned Hrun as st3 spoken Es.
  returned Hrun as st4 synced El.
  returned Hrun as st5 audio Ea.
  returned Hrun as st6 with_audio Ew. injection Ew as <- Ew.
  returned Hrun as st7 lipsync Ej.
  returned Hrun as st8 turn' Ef. injection Ef as <- Ef.
  injection Hrun as <- <-.
  exists turn, turn'. split; [done |]. split; [|done].
  exists audio, lipsync, with_audio. repeat split; try done.
  - unfold audioFileToBase64, call in Ea.
    destruct (readFile (mp3_file i) (world st4)) as [w' [data|]] eqn:Er;
      cbn in Ea; [|discriminate]. injection Ea as _ <-. by exists (world st4), w', data.
  - unfold readJsonTranscript, call in Ej.
    destruct (readFileUtf8 (json_file i) (world st5)) as [w' [content|]] eqn:Er;
      cbn in Ej; [|discriminate].
    destruct (JSON_parse content) as [v|] eqn:Ep; cbn in Ej; [|discriminate].
    injection Ej as _ <-. by exists (world st5), w', content.
Qed.

Lemma enrich_array_populated (fuel : nat) :
  forall (done rest : list JSValue) (st st' : State) (r : JSValue),
    enrich fuel (length done) (JArr (done ++ rest)) st = (st', Ok r) ->
    exists rest',
      r = JArr (done ++ rest') /\
      forall j turn, rest !! j = Some turn ->
        exists turn', rest' !! j = Some turn' /\ populated (length done + j) turn turn'.
Proof.
  induction fuel as [|fuel IH]; intros done rest st st' r; cbn [enrich].
  { intros [= _ ?]. }
  intros Hrun. returned Hrun as st0 more Etest. injection Etest as <- Etest.
  destruct rest as [|turn rest].
  - rewrite app_nil_r, Nat.ltb_irrefl in Etest. subst more.
    injection Hrun as <- <-. exists []. by rewrite app_nil_r.
  - assert (more = true) as ->.
    { rewrite <- Etest. apply Nat.ltb_lt. rewrite length_app. cbn. lia. }
    returned Hrun as st1 messages1 Eturn.
    apply enrichTurn_populated in Eturn as (turn0 & turn' & Hget & Hpop & ->).
    cbn in Hget. rewrite list_lookup_middle in Hget by done.
    injection Hget as <-.
    cbn [JS.store_index] in Hrun.
    replace (<[length done := turn']> (done ++ turn :: rest))
      with ((done ++ [turn']) ++ rest) in Hrun.
    2:{ rewrite <- (Nat.add_0_r (length done)) at 1.
        rewrite insert_app_r. cbn. by rewrite <- app_assoc. }
    replace (S (length done)) with (length (done ++ [turn'])) in Hrun
      by (rewrite length_app; cbn; lia).
    apply IH in Hrun as (rest' & -> & Hrest).
    exists (turn' :: rest'). split; [by rewrite <- app_assoc |].
    intros [|j] turn1; cbn.
    + intros [= <-]. exists turn'. by rewrite Nat.add_0_r.
    + intros Hj. destruct (Hrest j turn1 Hj) as (turn1' & Hj' & Hpop1).
      exists turn1'. split; [done |].
      rewrite length_app in Hpop1. cbn in Hpop1.
      by replace (length done + S j) with (length done + 1 + j) by lia.
Qed.

Lemma serve_list_populated (parsed body : JSValue) (turns : list JSValue)
    (st st' : State) :
  list_shaped parsed turns ->
  serve parsed st = (st', Ok body) ->
  exists turns',
    body = respond (JArr turns') /\
    forall i turn, turns !! i = Some turn ->
      exists turn', turns' !! i = Some turn' /\ populated i turn turn'.
Proof.
  intros Hshape%normalize_list (batch & messages & Hn & He & ->)%serve_returned.
  rewrite Hshape in Hn. injection Hn as <-.
  apply (enrich_array_populated _ []) in He as (turns' & -> & Hturns).
  by exists turns'.
Qed.

End Chat_more.

(** X1: in every response to a list of turns, a turn that is an object
    carries, at its position [i], an [audio] that is the base64 text of the
    bytes read from [audios/message_i.mp3] and a [lipsync] that is the parsed
    content of [audios/message_i.json]; what the model may have put in those
    two fields is replaced. *)
Theorem turn_carries_its_own_artifacts `{Collaborators} (parsed body : JSValue)
    (turns : list JSValue) (st st' : State) (i : nat)
    (props : list (string * JSValue)) :
  list_shaped parsed turns ->
  serve parsed st = (st', Ok body) ->
  turns !! i = Some (JObj props) ->
  exists turns' turn' audio lipsync,
    body = respond (JArr turns') /\ turns' !! i = Some turn' /\
    JS.get turn' "audio" = Ok (Some (JStr audio)) /\ audio_of_turn i audio /\
    JS.get turn' "lipsync" = Ok (Some lipsync) /\ lipsync_of_turn i lipsync.
Proof.
  intros Hshape Hrun Hi.
  destruct (serve_list_populated _ _ _ _ _ Hshape Hrun) as (turns' & -> & Hturns).
  destruct (Hturns i _ Hi)
    as (turn' & Hi' & audio & lipsync & with_audio & Ha & Hl & Hsa & Hsl).
  cbn in Hsa. injection Hsa as <-. cbn in Hsl. injection Hsl as <-.
  exists turns', (JObj (JS.assign "lipsync" lipsync (JS.assign "audio" (JStr audio) props))),
    audio, lipsync.
  repeat split; try done; cbn.
  - by rewrite assoc_assign_other, assoc_assign_same.
  - by rewrite assoc_assign_same.
Qed.

Lemma turn_carries_its_own_artifacts_witness :
  exists turns' turn' audio lipsync,
    Mock.body_of Mock.five_run = respond (JArr turns') /\ turns' !! 4 = Some turn' /\
    JS.get turn' "audio" = Ok (Some (JStr audio)) /\
    @audio_of_turn Mock.healthy 4 audio /\
    JS.get turn' "lipsync" = Ok (Some lipsync) /\
    @lipsync_of_turn Mock.healthy 4 lipsync.
Proof.
  apply (@turn_carries_its_own_artifacts Mock.healthy (JArr Mock.five)
           (Mock.body_of Mock.five_run) Mock.five Mock.start_healthy
           (Mock.state_of Mock.five_run) 4
           [("text", JStr "five"); ("facialExpression", JStr "surprised");
            ("animation", JStr "Laughing")]).
  - left. reflexivity.
  - vm_compute. reflexivity.
  - reflexivity.
Defined.

(** X2: a list is answered only if each of its elements is an object (or an
    array): a list that holds [null], a number, a boolean or a string is
    never answered. *)
Theorem answered_turns_are_objects `{Collaborators} (parsed body : JSValue)
    (turns : list JSValue) (st st' : State) (i : nat) (turn : JSValue) :
  list_shaped parsed turns ->
  serve parsed st = (st', Ok body) ->
  turns !! i = Some turn ->
  (exists props, turn = JObj props) \/ (exists elems, turn = JArr elems).
Proof.
  intros Hshape Hrun Hi.
  destruct (serve_list _ _ _ _ _ Hshape Hrun) as (turns' & _ & Henr & _).
  destruct (Forall2_lookup_l _ _ _ _ _ Henr Hi)
    as (turn' & _ & audio & lipsync & with_audio & Hsa & _).
  destruct turn; cbn in Hsa; try discriminate; eauto.
Qed.

Lemma answered_turns_are_objects_witness :
  (exists props, Mock.turn "one" "smile" "Talking_0" = JObj props) \/
  (exists elems, Mock.turn "one" "smile" "Talking_0" = JArr elems).
Proof.
  apply (@answered_turns_are_objects Mock.healthy (JArr Mock.five)
           (Mock.body_of Mock.five_run) Mock.five Mock.start_healthy
           (Mock.state_of Mock.five_run) 0).
  - left. reflexivity.
  - vm_compute. reflexivity.
  - reflexivity.
Defined.

(** X3: an empty list, bare or wrapped, is answered at once with an empty
    list: no collaborator is called and nothing is logged. *)
Theorem empty_list_is_answered_at_once `{Collaborators} (parsed : JSValue) (st : State) :
  list_shaped parsed [] ->
  serve parsed st = (st, Ok (JObj [("messages", JArr [])])).
Proof.
  intros Hshape%normalize_list. unfold serve. rewrite bind_run. cbn [lift].
  by rewrite Hshape.
Qed.

Lemma empty_list_is_answered_at_once_witness :
  @serve Mock.healthy (JObj [("messages", JArr [])]) Mock.start_healthy
    = (Mock.start_healthy, Ok (JObj [("messages", JArr [])])).
Proof.
  apply (@empty_list_is_answered_at_once Mock.healthy
           (JObj [("messages", JArr [])]) Mock.start_healthy).
  right. exists [("messages", JArr [])]. split; reflexivity.
Defined.






(** X6: when the model's reply is not JSON, the handler throws the
    SyntaxError of [JSON.parse] right after the completion: no turn is
    synthesized, nothing is sent. *)
Theorem unparseable_reply_stops_the_request `{Collaborators} (body : JSValue)
    (userMessage : option JSValue) (st : State) (w : World) (content : string) :
  JS.get body "message" = Ok userMessage ->
  createCompletion (userContent userMessage) (world st) = (w, Some content) ->
  JSON_parse content = None ->
  chat body st =
    (mkState w (log st ++ completed [CreateCompletion (userContent userMessage)]),
     Throw SyntaxError).
Proof.
  intros Hget Hcompletion Hparse. unfold chat. rewrite bind_run. cbn [lift].
  rewrite Hget, bind_run. unfold call at 1. rewrite Hcompletion.
  rewrite bind_run. cbn [lift]. by rewrite Hparse.
Qed.

Lemma unparseable_reply_stops_the_request_witness :
  @chat Garbled.collaborators (JObj []) (@start Garbled.collaborators 0)
    = (@mkState Garbled.collaborators 1
         ([] ++ completed [CreateCompletion (JStr "Hello")]),
       Throw SyntaxError).
Proof.
  apply (@unparseable_reply_stops_the_request Garbled.collaborators (JObj []) None
           (@start Garbled.collaborators 0) 1 Garbled.reply); reflexivity.
Defined.

(** * The artifacts of a turn *)

Lemma string_app_assoc (a b c : string) : (a +:+ b) +:+ c = a +:+ (b +:+ c).
Proof.
  induction a as [|x a IH]; [reflexivity |].
  change (String x ((a +:+ b) +:+ c) = String x (a +:+ (b +:+ c))). by rewrite IH.
Qed.

Lemma wav_file_inj (i j : nat) : wav_file i = wav_file j -> i = j.
Proof.
  unfold wav_file. intros Heq%(inj (String.app _)).
  apply (inj pretty), (string_app_same_length _ _ ".wav" ".wav"); [|done].
  apply (f_equal String.length) in Heq. rewrite !string_length_app in Heq. lia.
Qed.

Lemma json_file_inj (i j : nat) : json_file i = json_file j -> i = j.
Proof.
  unfold json_file. intros Heq%(inj (String.app _)).
  apply (inj pretty), (string_app_same_length _ _ ".json" ".json"); [|done].
  apply (f_equal String.length) in Heq. rewrite !string_length_app in Heq. lia.
Qed.

(** X7: two turns of a request never share an artifact: for distinct
    indices the synthesized, the transcoded and the transcript files are
    distinct, and so are the two command lines. *)
Theorem turns_do_not_share_artifacts (i j : nat) :
  i <> j ->
  mp3_file i <> mp3_file j /\ wav_file i <> wav_file j /\ json_file i <> json_file j /\
  ffmpeg_command i <> ffmpeg_command j /\ rhubarb_command i <> rhubarb_command j.
Proof.
  intros Hne. repeat split; intros Heq; apply Hne.
  - by apply mp3_file_inj.
  - by apply wav_file_inj.
  - by apply json_file_inj.
  - by apply ffmpeg_command_inj.
  - by apply rhubarb_command_inj.
Qed.

Lemma turns_do_not_share_artifacts_witness :
  mp3_file 1 <> mp3_file 11 /\ wav_file 1 <> wav_file 11 /\
  json_file 1 <> json_file 11 /\
  ffmpeg_command 1 <> ffmpeg_command 11 /\ rhubarb_command 1 <> rhubarb_command 11.
Proof.
  apply (turns_do_not_share_artifacts 1 11). lia.
Defined.

Lemma commands_name_the_files (i : nat) :
  ffmpeg_command i = "ffmpeg -y -i " +:+ mp3_file i +:+ " " +:+ wav_file i /\
  rhubarb_command i =
    "bin\rhubarb -f json -o " +:+ json_file i +:+ " " +:+ wav_file i +:+ " -r phonetic".
Proof.
  split.
  - unfold ffmpeg_command, mp3_file, wav_file. by rewrite !string_app_assoc.
  - unfold rhubarb_command, json_file, wav_file. by rewrite !string_app_assoc.
Qed.

(** X8: the stages of a pass are chained through the same files.  In a
    pass that succeeds for turn [i], the handler has the synthesis write the
    text of the turn to one file, runs [ffmpeg] from that file to a second
    one, runs [rhubarb] from the second to a third, reads the first back as
    the audio and the third back as the transcript: five calls made on the
    collaborators, each in the world the one before it left. *)
Theorem stages_are_chained_through_files `{Collaborators} (i : nat)
    (messages messages' : JSValue) (st st' : State) :
  enrichTurn i messages st = (st', Ok messages') ->
  exists (w1 w2 w3 w4 : World) (converted visemes : string) (data : list byte)
         (transcript : string),
    textToSpeech (mp3_file i) (turn_text messages i) (world st) = (w1, Some tt) /\
    exec ("ffmpeg -y -i " +:+ mp3_file i +:+ " " +:+ wav_file i) w1
      = (w2, Some converted) /\
    exec ("bin\rhubarb -f json -o " +:+ json_file i +:+ " " +:+ wav_file i
          +:+ " -r phonetic") w2
      = (w3, Some visemes) /\
    readFile (mp3_file i) w3 = (w4, Some data) /\
    readFileUtf8 (json_file i) w4 = (world st', Some transcript).
Proof.
  destruct (commands_name_the_files i) as [<- <-].
  unfold enrichTurn, turn_text. intros Hrun.
  returned Hrun as st1 message Ei. injection Ei as <- Ei. rewrite Ei.
  returned Hrun as st2 text Et. injection Et as <- Et.
  destruct message as [turn|]; [|discriminate Et].
  assert (text_of turn = text) as -> by (unfold text_of; cbn in Et; by rewrite Et).
  returned Hrun as st3 spoken Es.
  apply call_run in Es as [(? & [= <-] & Es & _) | (? & _)]; [|discriminate].
  returned Hrun as st5 synced El. unfold lipSyncMessage in El.
  returned El as st4 converted Ec.
  apply call_run in Ec as [(? & [= <-] & Ec & _) | (? & _)]; [|discriminate].
  returned El as st5' visemes Ev.
  apply call_run in Ev as [(? & [= <-] & Ev & _) | (? & _)]; [|discriminate].
  injection El as <- _.
  returned Hrun as st6 audio Ea. unfold audioFileToBase64 in Ea.
  apply call_run in Ea as [(? & [= <-] & Ea & _) | (? & _)]; [|discriminate].
  returned Hrun as st7 with_audio Ew. injection Ew as <- Ew.
  returned Hrun as st8 lipsync Ej. unfold readJsonTranscript in Ej.
  apply call_run in Ej as [(? & [= <-] & Ej & _) | (? & _)]; [|discriminate].
  returned Hrun as st9 turn' Ef. injection Ef as <- Ef.
  injection Hrun as <- _. destruct spoken.
  destruct (readFile (mp3_file i) (world st5')) as [w4 [data|]] eqn:Eread;
    [|discriminate Ea].
  injection Ea as Ea _. subst w4.
  destruct (readFileUtf8 (json_file i) (world st6)) as [w5 [transcript|]] eqn:Ejson;
    [|discriminate Ej].
  injection Ej as Ej _. subst w5.
  by exists (world st3), (world st4), (world st5'), (world st6), converted, visemes, data,
    transcript.
Qed.

Lemma stages_are_chained_through_files_witness :
  exists (w1 w2 w3 w4 : nat) (converted visemes : string) (data : list byte)
         (transcript : string),
    @textToSpeech Mock.healthy (mp3_file 0) (Some (JStr "one")) 0 = (w1, Some tt) /\
    @exec Mock.healthy ("ffmpeg -y -i " +:+ mp3_file 0 +:+ " " +:+ wav_file 0) w1
      = (w2, Some converted) /\
    @exec Mock.healthy
      ("bin\rhubarb -f json -o " +:+ json_file 0 +:+ " " +:+ wav_file 0
       +:+ " -r phonetic") w2
      = (w3, Some visemes) /\
    @readFile Mock.healthy (mp3_file 0) w3 = (w4, Some data) /\
    @readFileUtf8 Mock.healthy (json_file 0) w4 = (5, Some transcript).
Proof.
  apply (@stages_are_chained_through_files Mock.healthy 0 (JArr Mock.three)
           (Mock.body_of (@enrichTurn Mock.healthy 0 (JArr Mock.three) Mock.start_healthy))
           Mock.start_healthy
           (fst (@enrichTurn Mock.healthy 0 (JArr Mock.three) Mock.start_healthy))).
  vm_compute. reflexivity.
Defined.

(** * The length of the audio text *)

Lemma length_encode_upto (n : nat) (data : list byte) :
  length data <= n ->
  String.length (Base64.encode data) = 4 * ((length data + 2) / 3).
Proof.
  revert data. induction n as [n IH] using lt_wf_ind. intros data Hlen.
  destruct data as [|a [|b [|c rest]]]; try reflexivity.
  rewrite encode_three. cbn [String.length length].
  rewrite (IH (n - 3)) by (cbn in Hlen |- *; lia).
  replace (S (S (S (length rest))) + 2) with (length rest + 2 + 1 * 3) by lia.
  rewrite Nat.div_add by lia. lia.
Qed.

(** X9: the audio text of a file of [n] bytes has [4 * ceil(n / 3)]
    characters; the audio of an empty file is the empty string. *)
Theorem audio_text_length `{Collaborators} (file : string) (st : State) (w : World)
    (data : list byte) :
  readFile file (world st) = (w, Some data) ->
  exists st' audio,
    audioFileToBase64 file st = (st', Ok audio) /\
    String.length audio = 4 * ((length data + 2) / 3) /\
    (data = [] -> audio = "").
Proof.
  intros Hread. unfold audioFileToBase64, call. rewrite Hread. cbn.
  eexists _, _. split; [reflexivity |]. split.
  - by apply (length_encode_upto (length data)).
  - by intros ->.
Qed.

Lemma audio_text_length_witness :
  exists st' audio,
    @audioFileToBase64 Mock.healthy (mp3_file 0) Mock.start_healthy = (st', Ok audio) /\
    String.length audio = 4 * ((3 + 2) / 3) /\
    (["I"%byte; "D"%byte; "3"%byte] = [] -> audio = "").
Proof.
  apply (@audio_text_length Mock.healthy (mp3_file 0) Mock.start_healthy 1
           ["I"%byte; "D"%byte; "3"%byte]).
  reflexivity.
Defined.

(** * The [/transcript] route *)

Section Transcript_facts.

Context `{Collaborators} `{!Transcriber}.

Lemma text_of_transcript_turn (texttranscript : option JSValue) :
  text_of (transcript_turn texttranscript) = texttranscript.
Proof. by destruct texttranscript. Qed.

(** The ways the route can end. *)
Lemma transcript_cases (file : option (list byte)) (st st' : State)
    (r : Result Response) :
  transcript file st = (st', r) ->
  exists response,
    r = Ok response /\
    ((file = None /\ response = no_file_uploaded /\ st' = st) \/
     (exists buffer fetched error,
        file = Some buffer /\
        listen buffer (world st) = (world st', Some fetched) /\
        ok fetched = false /\ json fetched = Some error /\
        response = mkResponse (fetched_status fetched) (JObj [("error", error)]) /\
        log st' = log st) \/
     (exists buffer fetched w deepgramData texttranscript turn',
        file = Some buffer /\
        listen buffer (world st) = (w, Some fetched) /\
        ok fetched = true /\ json fetched = Some deepgramData /\
        transcript_of deepgramData = Ok texttranscript /\
        run_calls (turn_calls 0 texttranscript) w = (world st', None) /\
        response = mkResponse 200 (respond (JArr [turn'])) /\
        populated 0 (transcript_turn texttranscript) turn' /\
        log st' = log st ++ completed (turn_calls 0 texttranscript)) \/
     response = internal_server_error).
Proof.
  unfold transcript, try_catch.
  destruct file as [buffer|].
  2:{ intros [= <- <-]. exists no_file_uploaded. split; [done |]. by left. }
  rewrite bind_run. unfold fetch_listen at 1.
  destruct (listen buffer (world st)) as [w [fetched|]] eqn:Elisten.
  2:{ intros [= <- <-]. exists internal_server_error. split; [done |]. by do 3 right. }
  destruct (ok fetched) eqn:Eok; cbn [negb].
  - rewrite bind_run. unfold response_json. cbn [lift].
    destruct (json fetched) as [deepgramData|] eqn:Ejson.
    2:{ intros [= <- <-]. exists internal_server_error. split; [done |]. by do 3 right. }
    rewrite bind_run. cbn [lift].
    destruct (transcript_of deepgramData) as [texttranscript | e] eqn:Epath.
    2:{ intros [= <- <-]. exists internal_server_error. split; [done |]. by do 3 right. }
    rewrite bind_run.
    destruct (enrich _ 0 _ _) as [st1 [messages | e]] eqn:Eloop.
    2:{ intros [= <- <-]. exists internal_server_error. split; [done |]. by do 3 right. }
    intros [= <- <-].
    pose proof (enrich_turns_run_calls _ _ _ _ _ Eloop) as Hcalls.
    cbn [map schedule world] in Hcalls.
    rewrite text_of_transcript_turn, app_nil_r in Hcalls.
    pose proof (enrich_turns _ _ _ _ _ Eloop) as (turns' & -> & Henr & Hlog).
    apply (enrich_array_populated _ []) in Eloop as (turns'' & [= <-] & Hpop).
    destruct (Hpop 0 _ eq_refl) as (turn' & Hturn' & Hpopulated).
    apply Forall2_length in Henr. destruct turns' as [|t [|? ?]]; try discriminate.
    injection Hturn' as ->.
    eexists. split; [done |]. right. right. left.
    exists buffer, fetched, w, deepgramData, texttranscript, turn'.
    repeat split; try done.
    cbn [map schedule] in Hlog. by rewrite text_of_transcript_turn, app_nil_r in Hlog.
  - rewrite bind_run. unfold response_json. cbn [lift].
    destruct (json fetched) as [error|] eqn:Ejson.
    2:{ intros [= <- <-]. exists internal_server_error. split; [done |]. by do 3 right. }
    intros [= <- <-]. eexists. split; [done |]. right. left.
    by exists buffer, fetched, error.
Qed.

End Transcript_facts.

(** X10: once the calls it awaits have settled, the handler of
    [/transcript] has thrown nothing and has sent one of four responses:
    400 [No file uploaded] when there is no upload; the status and the JSON
    body of the service's answer, under [error], when the service answers
    with an HTTP error; 200 with one turn under [messages]; or 500
    [Internal server error], which is what every error inside the [try]
    becomes.  (Whether the awaited calls settle is the collaborators'
    business: a call that never settles leaves the request unanswered, and
    no run of this model stands for that.) *)
Theorem transcript_outcomes `{Collaborators} `{!Transcriber}
    (file : option (list byte)) (st st' : State) (r : Result Response) :
  transcript file st = (st', r) ->
  exists response,
    r = Ok response /\
    ((file = None /\ response = mkResponse 400 (JObj [("error", JStr "No file uploaded")])) \/
     (exists buffer fetched error,
        file = Some buffer /\
        listen buffer (world st) = (world st', Some fetched) /\
        ok fetched = false /\ json fetched = Some error /\
        response = mkResponse (fetched_status fetched) (JObj [("error", error)])) \/
     (exists buffer fetched w turn',
        file = Some buffer /\
        listen buffer (world st) = (w, Some fetched) /\ ok fetched = true /\
        response = mkResponse 200 (JObj [("messages", JArr [turn'])])) \/
     response = mkResponse 500 (JObj [("error", JStr "Internal server error")])).
Proof.
  intros Hrun.
  destruct (transcript_cases _ _ _ _ Hrun)
    as (response & -> &
        [(-> & -> & _) | [(buffer & fetched & error & -> & Hl & Hok & Hj & -> & _) |
         [(buffer & fetched & w & ? & ? & turn' & -> & Hl & Hok & _ & _ & _ & -> & _) |
          ->]]]);
    eexists; (split; [reflexivity |]).
  - by left.
  - right. left. by exists buffer, fetched, error.
  - right. right. left. by exists buffer, fetched, w, turn'.
  - by do 3 right.
Qed.

Lemma transcript_outcomes_witness :
  exists response,
    snd MockTranscript.no_visemes_run = Ok response /\
    ((Some MockTranscript.upload = None /\
      response = mkResponse 400 (JObj [("error", JStr "No file uploaded")])) \/
     (exists buffer fetched error,
        Some MockTranscript.upload = Some buffer /\
        @listen MockTranscript.no_visemes MockTranscript.deepgram_no_visemes buffer 0
          = (world (fst MockTranscript.no_visemes_run), Some fetched) /\
        ok fetched = false /\ json fetched = Some error /\
        response = mkResponse (fetched_status fetched) (JObj [("error", error)])) \/
     (exists buffer fetched w turn',
        Some MockTranscript.upload = Some buffer /\
        @listen MockTranscript.no_visemes MockTranscript.deepgram_no_visemes buffer 0
          = (w, Some fetched) /\ ok fetched = true /\
        response = mkResponse 200 (JObj [("messages", JArr [turn'])])) \/
     response = mkResponse 500 (JObj [("error", JStr "Internal server error")])).
Proof.
  apply (@transcript_outcomes MockTranscript.no_visemes
           MockTranscript.deepgram_no_visemes (Some MockTranscript.upload)
           (@start MockTranscript.no_visemes 0)).
  vm_compute. reflexivity.
Defined.

(** X11: when the transcription service answers with an HTTP error, the
    route answers with the status of that error and its JSON body under
    [error], and no stage of the enrichment is started; with no upload at
    all it answers 400 [No file uploaded] and nothing is called. *)
Theorem transcript_passes_the_upstream_error_on `{Collaborators} `{!Transcriber}
    (buffer : list byte) (st : State) (w : World) (fetched : Fetched)
    (error : JSValue) :
  listen buffer (world st) = (w, Some fetched) ->
  ok fetched = false ->
  json fetched = Some error ->
  transcript (Some buffer) st =
    (mkState w (log st),
     Ok (mkResponse (fetched_status fetched) (JObj [("error", error)]))) /\
  transcript None st =
    (st, Ok (mkResponse 400 (JObj [("error", JStr "No file uploaded")]))).
Proof.
  intros Hlisten Hok Hjson. split; [|reflexivity].
  unfold transcript, try_catch. rewrite bind_run. unfold fetch_listen at 1.
  rewrite Hlisten, Hok. cbn [negb]. rewrite bind_run. unfold response_json.
  cbn [lift]. by rewrite Hjson.
Qed.

Lemma transcript_passes_the_upstream_error_on_witness :
  @transcript Mock.healthy MockTranscript.unauthorized (Some MockTranscript.upload)
      Mock.start_healthy =
    (@mkState Mock.healthy 1 [],
     Ok (mkResponse 401
           (JObj [("error", JObj [("err_msg", JStr "Invalid credentials.")])]))) /\
  @transcript Mock.healthy MockTranscript.unauthorized None Mock.start_healthy =
    (Mock.start_healthy, Ok (mkResponse 400 (JObj [("error", JStr "No file uploaded")]))).
Proof.
  apply (@transcript_passes_the_upstream_error_on Mock.healthy
           MockTranscript.unauthorized MockTranscript.upload Mock.start_healthy 1
           (mkFetched false 401 (Some (JObj [("err_msg", JStr "Invalid credentials.")])))
           (JObj [("err_msg", JStr "Invalid credentials.")])); reflexivity.
Defined.

(** X12: when the service has answered with a transcript and a stage of
    the enrichment then fails on its collaborator (the synthesis, the
    transcoding, the viseme extraction or a read-back), [/transcript]
    answers 500 [Internal server error]: the turn is not sent, with or
    without its audio. *)
Theorem transcript_failure_is_a_500 `{Collaborators} `{!Transcriber}
    (buffer : list byte) (fetched : Fetched) (deepgramData : JSValue)
    (texttranscript : option JSValue) (c : Call) (w w' : World) (st st' : State)
    (r : Result Response) :
  listen buffer (world st) = (w, Some fetched) ->
  ok fetched = true ->
  json fetched = Some deepgramData ->
  transcript_of deepgramData = Ok texttranscript ->
  run_calls (turn_calls 0 texttranscript) w = (w', Some c) ->
  transcript (Some buffer) st = (st', r) ->
  r = Ok (mkResponse 500 (JObj [("error", JStr "Internal server error")])).
Proof.
  intros Hlisten Hok Hjson Hpath Hfail.
  unfold transcript, try_catch. rewrite bind_run. unfold fetch_listen at 1.
  rewrite Hlisten, Hok. cbn [negb]. rewrite bind_run. unfold response_json.
  cbn [lift]. rewrite Hjson, bind_run. cbn [lift]. rewrite Hpath, bind_run.
  destruct (enrich _ 0 _ _) as [st1 [messages | e]] eqn:Eloop.
  - apply enrich_turns_run_calls in Eloop. cbn [map schedule world] in Eloop.
    rewrite text_of_transcript_turn, app_nil_r in Eloop. congruence.
  - by intros [= <- <-].
Qed.

Lemma transcript_failure_is_a_500_witness :
  @run_calls MockTranscript.no_visemes (turn_calls 0 (Some (JStr "hello there"))) 1 =
    (4, Some (ExecCommand (rhubarb_command 0))) /\
  snd MockTranscript.no_visemes_run =
    Ok (mkResponse 500 (JObj [("error", JStr "Internal server error")])).
Proof.
  split; [vm_compute; reflexivity |].
  apply (@transcript_failure_is_a_500 MockTranscript.no_visemes
           MockTranscript.deepgram_no_visemes MockTranscript.upload
           (mkFetched true 200 (Some MockTranscript.heard)) MockTranscript.heard
           (Some (JStr "hello there")) (ExecCommand (rhubarb_command 0)) 1 4
           (@start MockTranscript.no_visemes 0) (fst MockTranscript.no_visemes_run)
           (snd MockTranscript.no_visemes_run)).
  - reflexivity.
  - reflexivity.
  - reflexivity.
  - reflexivity.
  - vm_compute. reflexivity.
  - vm_compute. reflexivity.
Defined.

(** X13: a response of [/transcript] that carries [messages] carries
    exactly one turn, with status 200.  The service answered the upload
    with a success whose JSON body is [deepgramData]; the [text] of the
    turn is what is found at [results.channels[0].alternatives[0].transcript]
    of that body; its expression is [smile], its animation [Talking_0]; the
    five stages of turn 0 were made for that text on the collaborators,
    from the world the service left, and all succeeded; and its [audio] and
    [lipsync] are read back from the files of index 0. *)
Theorem transcript_answers_one_turn `{Collaborators} `{!Transcriber}
    (file : option (list byte)) (st st' : State) (response : Response)
    (messages : JSValue) :
  transcript file st = (st', Ok response) ->
  JS.get (payload response) "messages" = Ok (Some messages) ->
  exists buffer fetched w deepgramData texttranscript turn' audio lipsync,
    file = Some buffer /\
    listen buffer (world st) = (w, Some fetched) /\
    ok fetched = true /\ json fetched = Some deepgramData /\
    transcript_of deepgramData = Ok texttranscript /\
    run_calls (turn_calls 0 texttranscript) w = (world st', None) /\
    status response = 200 /\ messages = JArr [turn'] /\
    JS.get turn' "text" = Ok texttranscript /\
    JS.get turn' "facialExpression" = Ok (Some (JStr "smile")) /\
    JS.get turn' "animation" = Ok (Some (JStr "Talking_0")) /\
    JS.get turn' "audio" = Ok (Some (JStr audio)) /\ audio_of_turn 0 audio /\
    JS.get turn' "lipsync" = Ok (Some lipsync) /\ lipsync_of_turn 0 lipsync.
Proof.
  intros Hrun Hmessages.
  destruct (transcript_cases _ _ _ _ Hrun)
    as (response' & [= <-] &
        [(_ & -> & _) | [(? & ? & ? & _ & _ & _ & _ & -> & _) |
         [(buffer & fetched & w & data & t & turn' & -> & Hlisten & Hok & Hjson &
           Hpath & Hcalls & -> & Hpop & _) | ->]]]); try discriminate.
  cbn in Hmessages. injection Hmessages as <-.
  destruct Hpop as (audio & lipsync & with_audio & Ha & Hl & Hsa & Hsl).
  cbn in Hsa. injection Hsa as <-. cbn in Hsl. injection Hsl as <-.
  eexists buffer, fetched, w, data, t, _, audio, lipsync.
  repeat split; try done; cbn;
    rewrite ?assoc_assign_same; try done;
    rewrite !assoc_assign_other by done; by destruct t.
Qed.

Lemma transcript_answers_one_turn_witness :
  exists buffer fetched w deepgramData texttranscript turn' audio lipsync,
    Some MockTranscript.upload = Some buffer /\
    @listen Mock.healthy MockTranscript.deepgram buffer (world Mock.start_healthy)
      = (w, Some fetched) /\
    ok fetched = true /\ json fetched = Some deepgramData /\
    transcript_of deepgramData = Ok texttranscript /\
    @run_calls Mock.healthy (turn_calls 0 texttranscript) w
      = (world (fst MockTranscript.heard_run), None) /\
    status MockTranscript.heard_response = 200 /\
    MockTranscript.heard_messages = JArr [turn'] /\
    JS.get turn' "text" = Ok texttranscript /\
    JS.get turn' "facialExpression" = Ok (Some (JStr "smile")) /\
    JS.get turn' "animation" = Ok (Some (JStr "Talking_0")) /\
    JS.get turn' "audio" = Ok (Some (JStr audio)) /\
    @audio_of_turn Mock.healthy 0 audio /\
    JS.get turn' "lipsync" = Ok (Some lipsync) /\
    @lipsync_of_turn Mock.healthy 0 lipsync.
Proof.
  apply (@transcript_answers_one_turn Mock.healthy MockTranscript.deepgram
           (Some MockTranscript.upload) Mock.start_healthy
           (fst MockTranscript.heard_run) MockTranscript.heard_response
           MockTranscript.heard_messages).
  - vm_compute. reflexivity.
  - reflexivity.
Defined.

(** * The message queue of the front end *)

Lemma played_is_dropped (k : nat) (messages : list JSValue) :
  Nat.iter k Queue.onMessagePlayed messages = drop k messages.
Proof.
  induction k as [|k IH]; [by rewrite drop_0 |].
  rewrite Nat.iter_succ, IH. unfold Queue.onMessagePlayed. rewrite drop_drop.
  f_equal. lia.
Qed.

Lemma currentMessage_head (messages : list JSValue) :
  Queue.currentMessage messages = default JNull (messages !! 0).
Proof. by destruct messages. Qed.

(** X14: the messages are played in the order of their arrival.  When a
    response is appended to the queue, its turns go behind the ones that
    wait, in their order; after [k] messages have been played the current
    message is the one at position [k] of the whole queue, and it is [null]
    once all have been played, however often [onMessagePlayed] is called
    then. *)
Theorem queue_is_played_in_order (queue queue' : list JSValue) (resp : option JSValue) :
  Queue.appendResponse queue resp = Ok queue' ->
  exists turns,
    Queue.spread resp = Ok turns /\
    forall k,
      Queue.currentMessage (Nat.iter k Queue.onMessagePlayed queue')
        = default JNull ((queue ++ turns) !! k).
Proof.
  unfold Queue.appendResponse. destruct (Queue.spread resp) as [turns | e]; [|done].
  intros [= <-]. exists turns. split; [done |]. intros k.
  by rewrite played_is_dropped, currentMessage_head, lookup_drop, Nat.add_0_r.
Qed.

Lemma queue_is_played_in_order_witness :
  exists turns,
    Queue.spread (Some (JArr Mock.three)) = Ok turns /\
    forall k,
      Queue.currentMessage
        (Nat.iter k Queue.onMessagePlayed ([Mock.turn "zero" "smile" "Idle"] ++ Mock.three))
        = default JNull (([Mock.turn "zero" "smile" "Idle"] ++ turns) !! k).
Proof.
  apply (queue_is_played_in_order [Mock.turn "zero" "smile" "Idle"]
           ([Mock.turn "zero" "smile" "Idle"] ++ Mock.three) (Some (JArr Mock.three))).
  reflexivity.
Defined.

(** X15: what [/chat] sends back without enrichment cannot be queued: when
    the normalized model output has no [length] (a number, a boolean, an
    object without that property), [/chat] answers with it under
    [messages], and the updater of the front end throws a TypeError on that
    [messages], whatever the queue. *)
Theorem forwarded_value_cannot_be_queued `{Collaborators} (parsed batch : JSValue)
    (st : State) (queue : list JSValue) :
  normalize parsed = Ok batch ->
  lengthless batch = true ->
  exists body,
    serve parsed st = (st, Ok body) /\
    JS.get body "messages" = Ok (Some batch) /\
    Queue.appendResponse queue (Some batch) = Throw TypeError.
Proof.
  intros Hn Hl. exists (respond batch). repeat split.
  - unfold serve. rewrite bind_run. cbn [lift]. rewrite Hn.
    rewrite bind_run. cbn [enrich]. rewrite bind_run. cbn [lift].
    destruct batch as [| | | | |props]; try discriminate; cbn; try done.
    cbn in Hl. by destruct (JS.assoc "length" props).
  - by destruct batch.
Qed.

Lemma forwarded_value_cannot_be_queued_witness :
  exists body,
    @serve Mock.healthy Mock.stray Mock.start_healthy = (Mock.start_healthy, Ok body) /\
    JS.get body "messages" = Ok (Some Mock.stray) /\
    Queue.appendResponse Mock.three (Some Mock.stray) = Throw TypeError.
Proof.
  apply (@forwarded_value_cannot_be_queued Mock.healthy Mock.stray Mock.stray
           Mock.start_healthy Mock.three); reflexivity.
Defined.

(** * The note taken by voice *)

Lemma indexOf_space_none (s : string) :
  Notes.has_space s = false -> Notes.indexOf_space s = (-1)%Z.
Proof.
  induction s as [|c s IH]; cbn; [done |].
  destruct (Ascii.eqb c " "); cbn; [done |]. intros Hs. by rewrite (IH Hs).
Qed.

Lemma indexOf_space_first (word rest : string) :
  Notes.has_space word = false ->
  Notes.indexOf_space (word +:+ " " +:+ rest) = Z.of_nat (String.length word).
Proof.
  induction word as [|c word IH]; [done |].
  change (String c word +:+ " " +:+ rest) with (String c (word +:+ " " +:+ rest)).
  cbn [Notes.has_space Notes.indexOf_space String.length].
  destruct (Ascii.eqb c " "); cbn [orb]; [done |]. intros Hword.
  rewrite (IH Hword). destruct (Z.ltb_spec (Z.of_nat (String.length word)) 0); lia.
Qed.

Lemma string_drop_app (s t : string) : Notes.string_drop (String.length s) (s +:+ t) = t.
Proof. induction s as [|c s IH]; [by destruct t | exact IH]. Qed.

(** X16: a voice note opens on a transcript that asks for one (it starts,
    in any case, with [note] or [take notes]) while none is being taken.
    The note then starts as that transcript without its first word: what
    follows the first space, so that [take notes buy milk] opens the note
    [notes buy milk].  A transcript of one word that asks for a note, with
    no space, is kept whole, trigger word included.  A transcript that does
    not ask for a note opens none and changes no note; while a note is
    taken, a final transcript is appended after a space and an interim one
    is not. *)
Theorem note_drops_the_first_word (s : Notes.Recognition) (word rest single other : string)
    (isFinal : bool) :
  Notes.isNoting s = false ->
  Notes.has_space word = false ->
  Notes.has_space single = false ->
  Notes.asks_for_a_note (word +:+ " " +:+ rest) = true ->
  Notes.asks_for_a_note single = true ->
  Notes.asks_for_a_note other = false ->
  Notes.onresult s (word +:+ " " +:+ rest) isFinal =
    Notes.mkRecognition true rest (word +:+ " " +:+ rest) /\
  Notes.onresult s single isFinal = Notes.mkRecognition true single single /\
  Notes.onresult s other isFinal = Notes.mkRecognition false (Notes.noteContent s) other /\
  (forall t note shown,
     Notes.onresult (Notes.mkRecognition true note shown) t true =
       Notes.mkRecognition true (note +:+ " " +:+ t) t /\
     Notes.onresult (Notes.mkRecognition true note shown) t false =
       Notes.mkRecognition true note t).
Proof.
  intros Hidle Hword Hsingle Hasks Hasks1 Hother. unfold Notes.onresult, Notes.substring.
  rewrite Hidle, Hasks, Hasks1, Hother. cbn [negb andb].
  split; [|split; [|split]].
  - rewrite (indexOf_space_first _ _ Hword).
    replace (Z.to_nat (Z.of_nat (String.length word) + 1))
      with (String.length (word +:+ " ")) by (rewrite string_length_app; cbn; lia).
    rewrite <- (string_app_assoc word " " rest). f_equal.
    rewrite (string_app_assoc word " " rest). rewrite <- (string_app_assoc word " " rest).
    apply string_drop_app.
  - by rewrite (indexOf_space_none _ Hsingle).
  - reflexivity.
  - intros t note shown. split; reflexivity.
Qed.

Lemma note_drops_the_first_word_witness :
  Notes.onresult Notes.idle "Take notes buy milk" false =
    Notes.mkRecognition true "notes buy milk" "Take notes buy milk" /\
  Notes.onresult Notes.idle "Notes" false = Notes.mkRecognition true "Notes" "Notes" /\
  Notes.onresult Notes.idle "buy milk" false = Notes.mkRecognition false "" "buy milk" /\
  (forall t note shown,
     Notes.onresult (Notes.mkRecognition true note shown) t true =
       Notes.mkRecognition true (note +:+ " " +:+ t) t /\
     Notes.onresult (Notes.mkRecognition true note shown) t false =
       Notes.mkRecognition true note t).
Proof.
  apply (note_drops_the_first_word Notes.idle "Take" "notes buy milk" "Notes" "buy milk"
           false); reflexivity.
Defined.

(** * The [/rag] route *)

Section Rag_facts.

Context `{Collaborators} `{!KnowledgeBase}.

Lemma attempt_run {A : Type} (run : World -> World * option A) (st st' : State)
    (r : Result A) :
  attempt run st = (st', r) ->
  log st' = log st /\
  ((exists a, r = Ok a /\ run (world st) = (world st', Some a)) \/
   (r = Throw TypeError /\ run (world st) = (world st', None))).
Proof.
  unfold attempt. destruct (run (world st)) as [w [a|]]; intros [= <- <-]; cbn; eauto.
Qed.

Lemma queryPinecone_lookup (query : JSValue) (topK : nat) (st : State) (w : World) :
  pineconeIndex (world st) = (w, Some tt) ->
  queryPinecone query topK st =
    match createEmbedding query w with
    | (w1, Some vector) =>
        match queryIndex vector topK w1 with
        | (w2, Some matches) => (mkState w2 (log st), Ok matches)
        | (w2, None) => (mkState w2 (log st), Ok [])
        end
    | (w1, None) => (mkState w1 (log st), Ok [])
    end.
Proof.
  intros Hindex. unfold queryPinecone. rewrite bind_run. unfold attempt at 1.
  rewrite Hindex. unfold try_catch. rewrite bind_run. unfold attempt. cbn.
  destruct (createEmbedding query w) as [w1 [vector|]]; [|done]. cbn.
  by destruct (queryIndex vector topK w1) as [w2 [matches|]].
Qed.

Lemma join_element_error (v : option JSValue) (e : Error) :
  join_element v = Throw e -> e = TypeError.
Proof.
  destruct v as [[| b | | | |]|]; cbn; try done; try (by destruct b);
    destruct (ToStringOther _); congruence.
Qed.

Lemma join_more (separator : string) (v v' : option JSValue)
    (rest : list (option JSValue)) :
  join separator (v :: v' :: rest) =
    s ← join_element v; t ← join separator (v' :: rest);
    Ok (s +:+ separator +:+ t).
Proof. reflexivity. Qed.

Lemma join_error (separator : string) (texts : list (option JSValue)) (e : Error) :
  join separator texts = Throw e -> e = TypeError.
Proof.
  revert e. induction texts as [|v texts IH]; intros e; [done |].
  destruct texts as [|v' texts]; [apply join_element_error |].
  rewrite join_more. destruct (join_element v) as [s | e0] eqn:Ev.
  2:{ intros [= <-]. by eapply join_element_error. }
  destruct (join separator (v' :: texts)) as [t | e0]; [done |].
  intros [= <-]. by apply IH.
Qed.

Lemma summarizeResults_cases (results : list JSValue) (userQuery : JSValue)
    (st st' : State) (r : Result JSValue) :
  summarizeResults results userQuery st = (st', r) ->
  r = Throw TypeError \/ r = Ok (JStr "Error generating summary") \/
  exists prompt w w' summary,
    createSummary prompt w = (w', Some summary) /\ r = Ok summary.
Proof.
  unfold summarizeResults. rewrite bind_run. cbn [lift].
  destruct (map_metadata_text results) as [texts | e] eqn:Etexts.
  2:{ intros [= _ <-]. left. f_equal. clear -Etexts. revert e Etexts.
      induction results as [|x results IH]; intros e; cbn; [done |].
      unfold metadata_text. destruct (JS.get x "metadata") as [metadata | e0] eqn:Em; cbn.
      2:{ intros [= <-]. by eapply get_error. }
      destruct (JS.get_member metadata "text") as [text | e0] eqn:Et; cbn.
      2:{ intros [= <-]. by eapply get_member_error. }
      destruct (map_metadata_text results) as [texts | e0]; cbn; [done |].
      intros [= <-]. by apply IH. }
  rewrite bind_run. cbn [lift].
  destruct (join (newline +:+ newline) texts) as [content | e] eqn:Ejoin.
  2:{ intros [= _ <-]. left. f_equal. by eapply join_error. }
  unfold try_catch. rewrite bind_run. cbn [lift].
  destruct (ToString userQuery) as [query | e]; [|intros [= _ <-]; by right; left].
  destruct (attempt _ st) as [st1 [summary | e]] eqn:Eattempt.
  - intros [= _ <-]. right. right.
    apply attempt_run in Eattempt as [_ [(a & [= <-] & Hrun) | [? _]]]; [|done].
    by eexists _, _, _, _.
  - intros [= _ <-]. by right; left.
Qed.

End Rag_facts.

(** X17: [/rag] requires a message: when [message] is absent or falsy the
    route answers 400 [Message is required] and calls nothing (where
    [/chat] goes on with [Hello]). *)
Theorem rag_requires_a_message `{Collaborators} `{!KnowledgeBase} (body : JSValue)
    (userMessage : option JSValue) (st : State) :
  JS.get body "message" = Ok userMessage ->
  JS.truthy_or_undefined userMessage = false ->
  rag body st =
    (st, Ok (Some (mkResponse 400 (JObj [("error", JStr "Message is required")])))).
Proof.
  intros Hget Hfalsy. unfold rag. rewrite bind_run. cbn [lift]. rewrite Hget.
  destruct userMessage as [m|]; [|done]. cbn in Hfalsy. by rewrite Hfalsy.
Qed.

Lemma rag_requires_a_message_witness :
  @rag Mock.healthy (MockRag.kb true MockRag.found None)
      (JObj [("message", JStr "")]) Mock.start_healthy =
    (Mock.start_healthy,
     Ok (Some (mkResponse 400 (JObj [("error", JStr "Message is required")])))).
Proof.
  apply (@rag_requires_a_message Mock.healthy (MockRag.kb true MockRag.found None)
           (JObj [("message", JStr "")]) (Some (JStr "")) Mock.start_healthy);
    reflexivity.
Defined.

(** X18: when the lookup finds nothing (the embedding fails, the query
    fails, or there is no match), [queryPinecone] returns the empty list
    and [/rag] returns with nothing sent: neither a summary nor an error. *)
Theorem rag_is_silent_when_nothing_is_found `{Collaborators} `{!KnowledgeBase}
    (body userMessage : JSValue) (st : State) (w w' : World) :
  JS.get body "message" = Ok (Some userMessage) ->
  JS.truthy userMessage = true ->
  pineconeIndex (world st) = (w, Some tt) ->
  finds_nothing userMessage 3 w w' ->
  queryPinecone userMessage 3 st = (mkState w' (log st), Ok []) /\
  rag body st = (mkState w' (log st), Ok None).
Proof.
  intros Hget Htruthy Hindex Hnothing.
  assert (queryPinecone userMessage 3 st = (mkState w' (log st), Ok [])) as Hquery.
  { rewrite (queryPinecone_lookup _ _ _ _ Hindex).
    destruct Hnothing as [-> | (vector & w1 & -> & [-> | ->])]; done. }
  split; [done |]. unfold rag. rewrite bind_run. cbn [lift]. rewrite Hget, Htruthy.
  cbn [negb]. unfold try_catch. by rewrite bind_run, Hquery.
Qed.

Lemma rag_is_silent_when_nothing_is_found_witness :
  @queryPinecone Mock.healthy (MockRag.kb false MockRag.found None)
      (JStr "kb office hours") 3 Mock.start_healthy
    = (@mkState Mock.healthy 1 (log Mock.start_healthy), Ok []) /\
  @rag Mock.healthy (MockRag.kb false MockRag.found None) MockRag.question
      Mock.start_healthy
    = (@mkState Mock.healthy 1 (log Mock.start_healthy), Ok None).
Proof.
  apply (@rag_is_silent_when_nothing_is_found Mock.healthy
           (MockRag.kb false MockRag.found None) MockRag.question
           (JStr "kb office hours") Mock.start_healthy 0 1);
    try reflexivity.
  left. reflexivity.
Defined.

(** X19: [/rag] never throws once the body is read, and what it sends is
    one of: 400 [Message is required]; 500 [Internal server error]; or, with
    status 200, what the summarizing model returned or, when the summary
    request failed, the text [Error generating summary] in its place. *)
Theorem rag_outcomes `{Collaborators} `{!KnowledgeBase} (body : JSValue)
    (userMessage : option JSValue) (st st' : State) (r : Result (option Response)) :
  JS.get body "message" = Ok userMessage ->
  rag body st = (st', r) ->
  exists sent,
    r = Ok sent /\
    forall response, sent = Some response ->
      response = mkResponse 400 (JObj [("error", JStr "Message is required")]) \/
      response = mkResponse 500 (JObj [("error", JStr "Internal server error")]) \/
      (status response = 200 /\
       (payload response = JStr "Error generating summary" \/
        exists prompt w w',
          createSummary prompt w = (w', Some (payload response)))).
Proof.
  intros Hget. unfold rag. rewrite bind_run. cbn [lift]. rewrite Hget.
  destruct userMessage as [m|].
  2:{ intros [= <- <-]. eexists. split; [done |]. intros ? [= <-]. by left. }
  destruct (JS.truthy m); cbn [negb].
  2:{ intros [= <- <-]. eexists. split; [done |]. intros ? [= <-]. by left. }
  unfold try_catch. rewrite bind_run.
  destruct (queryPinecone m 3 st) as [st1 [results | e]].
  2:{ intros [= <- <-]. eexists. split; [done |]. intros ? [= <-]. by right; left. }
  destruct (Nat.ltb 0 (length results)).
  2:{ intros [= <- <-]. eexists. split; [done |]. discriminate. }
  rewrite bind_run.
  destruct (summarizeResults results m st1) as [st2 [summary | e]] eqn:Esummary.
  2:{ intros [= <- <-]. eexists. split; [done |]. intros ? [= <-]. by right; left. }
  intros [= <- <-]. eexists. split; [done |]. intros ? [= <-]. right. right.
  split; [done |]. cbn.
  destruct (summarizeResults_cases _ _ _ _ _ Esummary)
    as [? | [[= ->] | (prompt & w & w' & v & Hcall & [= ->])]]; [done | by left |].
  right. by exists prompt, w, w'.
Qed.

Lemma rag_outcomes_witness :
  exists sent,
    Ok (Some (mkResponse 200 (JStr "Error generating summary"))) = Ok sent /\
    forall response, sent = Some response ->
      response = mkResponse 400 (JObj [("error", JStr "Message is required")]) \/
      response = mkResponse 500 (JObj [("error", JStr "Internal server error")]) \/
      (status response = 200 /\
       (payload response = JStr "Error generating summary" \/
        exists prompt w w',
          @createSummary Mock.healthy (MockRag.kb true MockRag.found None) prompt w
            = (w', Some (payload response)))).
Proof.
  apply (@rag_outcomes Mock.healthy (MockRag.kb true MockRag.found None)
           MockRag.question (Some (JStr "kb office hours")) Mock.start_healthy
           (@mkState Mock.healthy 3 [])
           (Ok (Some (mkResponse 200 (JStr "Error generating summary")))));
    reflexivity.
Defined.
